(** * markdownlayer: the incremental generation pipeline

    A shallow embedding of [generate], [generateInner] and
    [generateDocuments] (the generation pass with its cache) and of the
    body schema with [getFormat] (the format resolver), followed by the
    properties of the pipeline proved over it.

    Asynchronous code is awaited strictly in sequence in the source, so it
    is modelled as sequential code in a state-and-exception monad.  The
    collaborators that live outside the modelled files (glob matching, the
    filesystem, gray-matter, the schema resolver, the bundler, the naming
    utilities, node:path) are fields of an environment record. *)

From Stdlib Require Import Ascii ZArith NArith.
From Stdlib Require String.
From stdpp Require Import base option list strings pretty gmap.

(** ** JavaScript objects used as ordered records

    [docs], [generations], [config.definitions] and [cache.uniques] are
    plain objects that the code enumerates with [Object.keys],
    [Object.values] and [Object.entries].  The enumeration order of own
    string keys is: array-index keys in ascending numeric order first, then
    every other key in the order of its creation.  A property that is
    assigned again keeps its place. *)

Module Js.

Definition digit_of (c : ascii) : option N :=
  let n := N_of_ascii c in
  if ((48 <=? n) && (n <=? 57))%N then Some (n - 48)%N else None.

Fixpoint digits_value (s : string) (acc : N) : option N :=
  match s with
  | EmptyString => Some acc
  | String c r =>
      match digit_of c with
      | Some d => digits_value r (acc * 10 + d)%N
      | None => None
      end
  end.

(** A key is an array index when it is the canonical decimal form of an
    integer below 2^32 - 1. *)
Definition array_index (s : string) : option N :=
  match s with
  | EmptyString => None
  | String "0"%char EmptyString => Some 0%N
  | String "0"%char _ => None
  | _ =>
      match digits_value s 0 with
      | Some n => if (n <? 4294967295)%N then Some n else None
      | None => None
      end
  end.

(** The own properties, in creation order. *)
Abbreviation object V := (list (string * V)).

Section Object.
Context {V : Type}.

Definition empty : object V := [].

Fixpoint get (o : object V) (k : string) : option V :=
  match o with
  | [] => None
  | (k', v) :: r => if decide (k' = k) then Some v else get r k
  end.

(** [o[k] = v] *)
Fixpoint set (o : object V) (k : string) (v : V) : object V :=
  match o with
  | [] => [(k, v)]
  | (k', v') :: r =>
      if decide (k' = k) then (k', v) :: r else (k', v') :: set r k v
  end.

(** [delete o[k]] *)
Definition del (o : object V) (k : string) : object V :=
  filter (λ kv, kv.1 ≠ k) o.

Fixpoint insert_index (n : N) (kv : string * V)
    (l : list (N * (string * V))) : list (N * (string * V)) :=
  match l with
  | [] => [(n, kv)]
  | (m, kv') :: r =>
      if (n <? m)%N then (n, kv) :: l else (m, kv') :: insert_index n kv r
  end.

Definition index_props (o : object V) : list (N * (string * V)) :=
  foldr (λ kv acc,
           match array_index kv.1 with
           | Some n => insert_index n kv acc
           | None => acc
           end) [] o.

Definition string_props (o : object V) : object V :=
  filter (λ kv, array_index kv.1 = None) o.

Definition entries (o : object V) : list (string * V) :=
  (snd <$> index_props o) ++ string_props o.

Definition keys (o : object V) : list string := fst <$> entries o.
Definition values (o : object V) : list V := snd <$> entries o.
End Object.

End Js.

(** ** Data model *)

#[local] Set Warnings "-register-all".

(** Values of type [unknown] that end up in JSON artifacts. *)
Inductive Json :=
| JNull
| JBool (b : bool)
| JNum (n : Z)
| JStr (s : string)
| JArr (l : list Json)
| JObj (l : list (string * Json)).

(** [Record<string, unknown>]: a metadata block or a validated document. *)
Definition Data := list (string * Json).

Inductive DocumentFormat := md | mdx | mdoc.

#[global] Instance DocumentFormat_eq_dec : EqDecision DocumentFormat.
Proof. solve_decision. Defined.

(** [DocumentFormatInput = 'detect' | DocumentFormat] *)
Inductive DocumentFormatInput :=
| detect
| explicit (f : DocumentFormat).

Inductive GenerationMode := development | production.

(** [patterns] is a single glob or a list of globs; both have a [length]. *)
Inductive Patterns :=
| OnePattern (p : string)
| ManyPatterns (ps : list string).

Definition patterns_length (p : Patterns) : nat :=
  match p with
  | OnePattern s => String.length s
  | ManyPatterns l => length l
  end.

(** The error of a failed [safeParseAsync]: [error.errors[i].path[j]]. *)
Inductive PathElem :=
| PKey (k : string)
| PIndex (i : N).

Record ZodIssue := { issue_path : list PathElem; issue_message : string }.
Record ZodError := { errors : list ZodIssue }.

Inductive SafeParseResult :=
| ParseSuccess (data : Data)
| ParseFailure (error : ZodError).

Record Schema := { safeParseAsync : Data → SafeParseResult }.

Record DocumentDefinition := {
  def_schema : option Schema;
  def_format : option DocumentFormatInput;
}.

Record OutputPaths := { out_assets : string; out_generated : string }.

(** The configuration without its cache object, which is mutable state and
    lives in the [World]. *)
Record ResolvedConfig := {
  configPath : string;
  configImports : list string;
  contentDirPath : string;
  patterns : option Patterns;
  output : OutputPaths;
  definitions : Js.object DocumentDefinition;
  mdAsMarkdoc : option bool;
}.

(** [cache.items[file]] *)
Record CacheEntry := {
  hash : string;
  entry_type : string;
  document : Data;
}.

Record ErrorLocation := { loc_file : string; loc_line : Z; loc_column : Z }.

Inductive Error :=
| ConfigNoPatternsError
| InvalidDocumentFrontmatterError
    (definition : string) (path : string) (error : ZodError)
    (location : ErrorLocation)
| FormatDetectionError (file : string)
| TypeError (message : string).

(** What [writeFile] is given: the value handed to [JSON.stringify] for the
    two JSON artifacts, the joined lines for the import module. *)
Inductive Content :=
| JsonDocument (data : Data)
| JsonCollection (docs : list Data)
| SourceText (text : string).

Inductive LogMessage :=
| Watching (dir : string)
| ConfigChanged
| FileChanged (file : string)
| GeneratedStats (total cached : nat)
| Warning (e : Error).

(** Observable effects, in the order they happen. *)
Inductive Event :=
| Mkdir (path : string)
| Glob (patterns : Patterns) (cwd : string)
| Stat (file : string)
| ReadFile (file : string)
| WriteFile (path : string) (c : Content)
| OutputEntryFiles
| OutputAssets
| CacheSave
| Log (m : LogMessage)
| WatchStart (files : list string) (cwd : string)
| WatchClose.

Record World := {
  cache_items : gmap string CacheEntry;   (* config.cache.items *)
  cache_uniques : Js.object string;       (* config.cache.uniques *)
  store : gmap string CacheEntry;         (* what cache.save() last wrote *)
  trace : list Event;
}.

Definition emit (e : Event) (w : World) : World :=
  {| cache_items := cache_items w; cache_uniques := cache_uniques w;
     store := store w; trace := trace w ++ [e] |}.

Definition set_items (m : gmap string CacheEntry) (w : World) : World :=
  {| cache_items := m; cache_uniques := cache_uniques w;
     store := store w; trace := trace w |}.

Definition set_uniques (u : Js.object string) (w : World) : World :=
  {| cache_items := cache_items w; cache_uniques := u;
     store := store w; trace := trace w |}.

(** ** Results and the monad of the pipeline *)

Inductive Result (A : Type) :=
| OK (a : A)
| Err (e : Error).
Arguments OK {A} a.
Arguments Err {A} e.

(** A computation runs in a world and either returns or throws; the effects
    performed before a throw stay in the world. *)
Definition M (A : Type) : Type := World → Result A * World.

Definition ret {A} (a : A) : M A := λ w, (OK a, w).
Definition throw {A} (e : Error) : M A := λ w, (Err e, w).
Definition bind {A B} (m : M A) (k : A → M B) : M B :=
  λ w, match m w with
       | (OK a, w') => k a w'
       | (Err e, w') => (Err e, w')
       end.
Definition perform (e : Event) : M unit := λ w, (OK tt, emit e w).
Definition lift {A} (r : Result A) : M A := λ w, (r, w).

Notation "'let*' x := m 'in' k" := (bind m (λ x, k))
  (at level 10, x name, m at level 100, k at level 200, only parsing).
Notation "m ;; k" := (bind m (λ _, k))
  (at level 100, k at level 200, right associativity, only parsing).

Fixpoint for_each {A S} (f : A → S → M S) (l : list A) (s : S) : M S :=
  match l with
  | [] => ret s
  | x :: r => let* s' := f x s in for_each f r s'
  end.

(** The events chokidar reports through ['all']. *)
Inductive WatchEventName := add | addDir | change | unlink | unlinkDir.

(** ** Collaborators *)

(** [matter(contents)]: the metadata block as data and as raw text. *)
Record ParsedMatter := { pm_data : Data; pm_matter : string }.

Record ResolveSchemaOptions := {
  rs_type : string;
  rs_schema : option Schema;
  rs_path : string;
  rs_contents : string;
  rs_frontmatter : Data;
  rs_config : ResolvedConfig;
}.

Record BundleProps := {
  bp_contents : string;
  bp_entryPath : string;
  bp_format : DocumentFormat;
  bp_plugins : ResolvedConfig;
  bp_frontmatter : Data;
}.

(** [{ code, errors }], an error being kept by its [text]. *)
Record BundleResult := {
  bundle_code : string;
  bundle_errors : option (list string);
}.

(** What a pass reads from outside the modelled files.  [mtimeMs_toString]
    is [(await stat(file)).mtimeMs.toString()], the fingerprint of a file;
    two environments that differ in it are the filesystem before and after
    a modification.  [getConfig] is given the persisted cache store and
    returns the configuration with its loaded cache. *)
Record Env := {
  join : list string → string;
  relative : string → string → string;
  extname : string → string;
  globby : Patterns → string → list string;
  mtimeMs_toString : string → string;
  readFile : string → string;
  matter : string → ParsedMatter;
  resolveSchema : ResolveSchemaOptions → option Schema;
  getYamlErrorLine : string → string → Z;
  idToFileName : string → string;
  makeVariableName : string → string;
  getDataVariableName : string → string;
  autogeneratedNote : string;
  assertStatement : string;
  bundle : BundleProps → BundleResult;
  getConfig : GenerationMode → option string → gmap string CacheEntry →
              ResolvedConfig * (gmap string CacheEntry * Js.object string);
}.

Definition newline : string := String "010"%char EmptyString.

(** [String(path[0])] *)
Definition String_of (e : option PathElem) : string :=
  match e with
  | Some (PKey k) => k
  | Some (PIndex i) => pretty i
  | None => "undefined"
  end.

(** ** The format resolver and the body schema *)

Definition mdExtensions : list string :=
  [".md"; ".markdown"; ".mdown"; ".mkdn"; ".mkd"; ".mdwn"; ".mkdown"; ".ron"].

Definition includes (l : list string) (x : string) : bool :=
  bool_decide (x ∈ l).

Definition getFormat (env : Env) (file : string)
    (format : DocumentFormatInput) : Result DocumentFormat :=
  match format with
  | detect =>
      let ext := extname env file in
      if includes mdExtensions ext then OK md
      else if bool_decide (ext = ".mdx") then OK mdx
      else if bool_decide (ext = ".mdoc") then OK mdoc
      else Err (FormatDetectionError file)
  | explicit f => OK f
  end.

Record BodyOptions := {
  bo_path : string;
  bo_format : option DocumentFormatInput;
  bo_contents : string;
  bo_frontmatter : Data;
  bo_config : ResolvedConfig;
}.

Record DocumentBody := {
  body_format : DocumentFormat;
  body_raw : string;
  body_code : string;
}.

(** The outcome of a zod transform that returned: a value, or an issue
    added with [addIssue]. *)
Inductive Transformed (A : Type) :=
| Value (a : A)
| Issue (message : string).
Arguments Value {A} a.
Arguments Issue {A} message.

(** The format the transform settles on before it bundles. *)
Definition body_resolved_format (env : Env) (o : BodyOptions)
    : Result DocumentFormat :=
  let mdAsMarkdoc := default false (mdAsMarkdoc (bo_config o)) in
  match getFormat env (bo_path o) (default detect (bo_format o)) with
  | OK format =>
      OK (if bool_decide (format = md) && mdAsMarkdoc then mdoc else format)
  | Err e => Err e
  end.

(** The [BundleProps] handed to [bundle]. *)
Definition body_bundle_options (env : Env) (o : BodyOptions)
    : Result BundleProps :=
  match body_resolved_format env o with
  | OK format =>
      OK {| bp_contents := bo_contents o;
            bp_entryPath := bo_path o;
            bp_format := format;
            bp_plugins := bo_config o;
            bp_frontmatter := bo_frontmatter o |}
  | Err e => Err e
  end.

Definition body (env : Env) (o : BodyOptions)
    : Result (Transformed DocumentBody) :=
  match body_bundle_options env o with
  | OK options =>
      let r := bundle env options in
      match bundle_errors r with
      | Some (text :: _) => OK (Issue text)
      | _ =>
          OK (Value {| body_format := bp_format options;
                       body_raw := bo_contents o;
                       body_code := bundle_code r |})
      end
  | Err e => Err e
  end.

(** ** The document type processor: [generateDocuments] *)

Record GeneratedCount := { cached : nat; generated : nat; total : nat }.

(** [DocumentDefinition & { type, config }], built as [{ ...def, type, config }]. *)
Record GenerateDocsOptions := {
  opt_schema : option Schema;
  opt_format : option DocumentFormatInput;
  opt_type : string;
  opt_config : ResolvedConfig;
}.

(** The locals the loop over the files updates: the two counters and
    [docs], keyed by file. *)
Record Locals := {
  n_cached : nat;
  n_generated : nat;
  docs : Js.object Data;
}.

Definition default_patterns : Patterns := OnePattern "**/*.{md,mdoc,mdx}".

Section Pass.
Variable env : Env.

(** The schema step of one recomputed file: the data to emit, or the
    error thrown. *)
Definition validate (options : GenerateDocsOptions) (file : string)
    : Result Data :=
  let config := opt_config options in
  let type := opt_type options in
  let contents := readFile env file in
  let parsedMatter := matter env contents in
  let frontmatter := pm_data parsedMatter in
  let resolveSchemaOptions :=
    {| rs_type := type; rs_schema := opt_schema options;
       rs_path := file; rs_contents := contents;
       rs_frontmatter := frontmatter; rs_config := config |} in
  match resolveSchema env resolveSchemaOptions with
  | Some schema =>
      match safeParseAsync schema frontmatter with
      | ParseSuccess data => OK data
      | ParseFailure error =>
          match errors error with
          | issue :: _ =>
              Err (InvalidDocumentFrontmatterError
                     type (relative env (configPath config) file) error
                     {| loc_file := file;
                        loc_line :=
                          getYamlErrorLine env (pm_matter parsedMatter)
                            (String_of (head (issue_path issue)));
                        loc_column := 0 |})
          | [] =>
              Err (TypeError "Cannot read properties of undefined (reading 'path')")
          end
      end
  | None => OK frontmatter
  end.

(** [!cacheEntry || cacheEntry.hash !== hash] *)
Definition changed (cacheEntry : option CacheEntry) (h : string) : bool :=
  match cacheEntry with
  | None => true
  | Some e => bool_decide (hash e ≠ h)
  end.

Definition output_json (options : GenerateDocsOptions)
    (definitionDir file : string) : string :=
  join env [out_generated (output (opt_config options)); opt_type options;
            idToFileName env (relative env definitionDir file) +:+ ".json"].

Definition cache_set (file : string) (e : CacheEntry) : M unit :=
  λ w, (OK tt, set_items (<[file := e]> (cache_items w)) w).

(** The loop body past the [continue]: read, validate, write, cache. *)
Definition recompute (options : GenerateDocsOptions)
    (definitionDir file h : string) (l : Locals) : M Locals :=
  perform (ReadFile file) ;;
  let* data := lift (validate options file) in
  perform (WriteFile (output_json options definitionDir file)
             (JsonDocument data)) ;;
  cache_set file {| hash := h; entry_type := opt_type options;
                    document := data |} ;;
  ret {| n_cached := n_cached l; n_generated := S (n_generated l);
         docs := Js.set (docs l) file data |}.

(** One iteration of the loop over [files]. *)
Definition process_file (options : GenerateDocsOptions)
    (definitionDir file : string) (l : Locals) : M Locals :=
  perform (Stat file) ;;
  let h := mtimeMs_toString env file in
  λ w,
    let cacheEntry := cache_items w !! file in
    if changed cacheEntry h then recompute options definitionDir file h l w
    else
      match cacheEntry with
      | Some cacheEntry =>
          ret {| n_cached := S (n_cached l); n_generated := n_generated l;
                 docs := Js.set (docs l) file (document cacheEntry) |} w
      | None =>
          throw (TypeError "Cannot read properties of undefined (reading 'document')") w
      end.

Definition import_line (definitionDir id : string) : string :=
  "import " +:+ makeVariableName env id +:+ " from './"
    +:+ idToFileName env (relative env definitionDir id) +:+ ".json'"
    +:+ assertStatement env +:+ ";".

(** The lines of [index.mjs], for the keys of [docs]. *)
Definition import_module (type definitionDir : string) (ids : list string)
    : string :=
  String.concat newline
    ([autogeneratedNote env; ""]
     ++ (import_line definitionDir <$> ids)
     ++ [""; "export const " +:+ getDataVariableName env type +:+ " = [";
         "  " +:+ String.concat ("," +:+ newline +:+ "  ")
                    (makeVariableName env <$> ids) +:+ ",";
         "];"; ""]).

Definition generateDocuments (options : GenerateDocsOptions)
    : M GeneratedCount :=
  let type := opt_type options in
  let config := opt_config options in
  let patterns := default default_patterns (patterns config) in
  if bool_decide (patterns_length patterns = 0) then
    throw ConfigNoPatternsError
  else
    let definitionDir := join env [contentDirPath config; type] in
    perform (Glob patterns definitionDir) ;;
    let files := globby env patterns definitionDir in
    perform (Mkdir (join env [out_generated (output config); type])) ;;
    let* l := for_each (process_file options definitionDir) files
                {| n_cached := 0; n_generated := 0; docs := Js.empty |} in
    perform (WriteFile
               (join env [out_generated (output config); type; "index.json"])
               (JsonCollection (Js.values (docs l)))) ;;
    perform (WriteFile
               (join env [out_generated (output config); type; "index.mjs"])
               (SourceText
                  (import_module type definitionDir (Js.keys (docs l))))) ;;
    ret {| cached := n_cached l; generated := n_generated l;
           total := length (Js.keys (docs l)) |}.

(** ** The orchestrator: [generateInner] and [generate] *)

(** The loop over [Object.entries(config.definitions)]. *)
Definition run_definition (config : ResolvedConfig)
    (td : string * DocumentDefinition)
    (generations : Js.object GeneratedCount)
    : M (Js.object GeneratedCount) :=
  let '(type, def) := td in
  let* generation :=
    generateDocuments {| opt_schema := def_schema def;
                         opt_format := def_format def;
                         opt_type := type; opt_config := config |} in
  ret (Js.set generations type generation).

Definition run_definitions (config : ResolvedConfig)
    : M (Js.object GeneratedCount) :=
  for_each (run_definition config) (Js.entries (definitions config)) Js.empty.

Definition add_count (acc count : GeneratedCount) : GeneratedCount :=
  {| cached := cached acc + cached count;
     generated := generated acc + generated count;
     total := total acc + total count |}.

(** [Array.prototype.reduce] without an initial value: the first element
    starts the accumulator, and an empty array throws. *)
Definition reduce {A} (f : A → A → A) (l : list A) : Result A :=
  match l with
  | [] => Err (TypeError "Reduce of empty array with no initial value")
  | x :: r => OK (foldl f x r)
  end.

(** Modelled from the spec: [config.cache.save()], a method of the cache
    object, whose module is not among the modelled files.  It persists the
    cache: the store becomes the mapping from path to entry that
    [cache.items] holds. *)
Definition cache_save : M unit :=
  λ w, (OK tt,
        emit CacheSave
          {| cache_items := cache_items w; cache_uniques := cache_uniques w;
             store := cache_items w; trace := trace w |}).

Definition generateInner (config : ResolvedConfig) : M unit :=
  let* generations := run_definitions config in
  perform OutputAssets ;;
  cache_save ;;
  let* count := lift (reduce add_count (Js.values generations)) in
  perform (Log (GeneratedStats (total count) (cached count))).

(** [generate] up to the point where the watcher is installed; the
    handler it installs is [on_all] below. *)
Definition generate (mode : GenerationMode) (providedConfigPath : option string)
    : M ResolvedConfig :=
  λ w,
    let '(config, (items, uniques)) :=
      getConfig env mode providedConfigPath (store w) in
    (perform (Mkdir (out_assets (output config))) ;;
     perform (Mkdir (out_generated (output config))) ;;
     perform OutputEntryFiles ;;
     generateInner config ;;
     match mode with
     | development =>
         perform (Log (Watching (contentDirPath config))) ;;
         perform (WatchStart (contentDirPath config :: configImports config)
                    (contentDirPath config)) ;;
         ret config
     | production => ret config
     end) (set_uniques uniques (set_items items w)).

(** ** The watch loop: the handler of the watcher's ['all'] event *)

(** The first loop of the handler: every entry of [cache.uniques] whose
    value is the changed path is deleted. *)
Definition remove_changed_file_cache (filename : string) : M unit :=
  λ w,
    (OK tt,
     set_uniques
       (foldl (λ u kv, if bool_decide (kv.2 = filename)
                       then Js.del u kv.1 else u)
          (cache_uniques w) (Js.entries (cache_uniques w))) w).

(** An error of the awaited regeneration is caught and logged; the
    restart is returned without being awaited, so its error is the
    handler's. *)
Definition on_all (mode : GenerationMode) (providedConfigPath : option string)
    (config : ResolvedConfig) (eventName : WatchEventName)
    (filename : option string) : M unit :=
  match eventName, filename with
  | addDir, _ | unlinkDir, _ => ret tt
  | _, None => ret tt
  | _, Some filename =>
      let filename := join env [contentDirPath config; filename] in
      remove_changed_file_cache filename ;;
      if includes (configImports config) filename then
        perform (Log ConfigChanged) ;;
        perform WatchClose ;;
        generate mode providedConfigPath ;;
        ret tt
      else
        perform (Log (FileChanged filename)) ;;
        λ w, match generateInner config w with
             | (OK tt, w') => (OK tt, w')
             | (Err error, w') => perform (Log (Warning error)) w'
             end
  end.

End Pass.

(** ** A concrete environment

    The theorems below hold for every environment.  The closed examples
    need one: [NodePath.extname] follows the loop of node's
    [path.posix.extname]; the other fields are small stand-ins that are
    only ever evaluated on the inputs of the examples. *)

Module NodePath.

Record ExtState := {
  startDot : Z;
  startPart : Z;
  end_ : Z;
  matchedSlash : bool;
  preDotState : Z;
  stopped : bool;
}.

Definition ext_step (st : ExtState) (ic : Z * ascii) : ExtState :=
  let '(i, code) := ic in
  if stopped st then st
  else if bool_decide (code = "/"%char) then
    if negb (matchedSlash st) then
      {| startDot := startDot st; startPart := i + 1; end_ := end_ st;
         matchedSlash := matchedSlash st; preDotState := preDotState st;
         stopped := true |}
    else st
  else
    let st :=
      if bool_decide (end_ st = -1)%Z then
        {| startDot := startDot st; startPart := startPart st; end_ := i + 1;
           matchedSlash := false; preDotState := preDotState st;
           stopped := false |}
      else st in
    if bool_decide (code = "."%char) then
      if bool_decide (startDot st = -1)%Z then
        {| startDot := i; startPart := startPart st; end_ := end_ st;
           matchedSlash := matchedSlash st; preDotState := preDotState st;
           stopped := false |}
      else
        {| startDot := startDot st; startPart := startPart st; end_ := end_ st;
           matchedSlash := matchedSlash st; preDotState := 1;
           stopped := false |}
    else if bool_decide (startDot st ≠ -1)%Z then
      {| startDot := startDot st; startPart := startPart st; end_ := end_ st;
         matchedSlash := matchedSlash st; preDotState := -1;
         stopped := false |}
    else st.

Definition indexed (s : string) : list (Z * ascii) :=
  imap (λ i c, (Z.of_nat i, c)) (String.list_ascii_of_string s).

Definition extname (path : string) : string :=
  let st :=
    foldl ext_step
      {| startDot := -1; startPart := 0; end_ := -1; matchedSlash := true;
         preDotState := 0; stopped := false |}
      (reverse (indexed path)) in
  if bool_decide (startDot st = -1)%Z
     || bool_decide (end_ st = -1)%Z
     || bool_decide (preDotState st = 0)%Z
     || (bool_decide (preDotState st = 1)%Z
         && bool_decide (startDot st = end_ st - 1)%Z
         && bool_decide (startDot st = startPart st + 1)%Z)
  then ""
  else String.substring (Z.to_nat (startDot st))
         (Z.to_nat (end_ st - startDot st)) path.

End NodePath.

Module Demo.

(** [join] and [relative] on segments that are already normalised. *)
Definition path_join (parts : list string) : string := String.concat "/" parts.

Definition path_relative (from to : string) : string :=
  let n := String.length from in
  if String.prefix (from +:+ "/") to
  then String.substring (S n) (String.length to - S n) to
  else to.

(** A metadata block is a single title line, absent when the file is empty. *)
Definition gray_matter (contents : string) : ParsedMatter :=
  {| pm_data := if bool_decide (contents = "") then []
                else [("title", JStr contents)];
     pm_matter := "title: " +:+ contents |}.

(** A title is required; a missing [draft] defaults to [false]. *)
Definition schema : Schema :=
  {| safeParseAsync := λ d,
       match d with
       | [(k, JStr t)] =>
           if bool_decide (k = "title")
           then ParseSuccess [("title", JStr t); ("draft", JBool false)]
           else ParseFailure
                  {| errors := [{| issue_path := [PKey "title"];
                                   issue_message := "Required" |}] |}
       | _ => ParseFailure
                {| errors := [{| issue_path := [PKey "title"];
                                 issue_message := "Required" |}] |}
       end |}.

Definition blog : DocumentDefinition :=
  {| def_schema := Some schema; def_format := None |}.

Definition config_of (ps : option Patterns)
    (defs : Js.object DocumentDefinition) : ResolvedConfig :=
  {| configPath := "/site";
     configImports := ["/site/markdownlayer.config.ts"];
     contentDirPath := "/site/content";
     patterns := ps;
     output := {| out_assets := "/site/.markdownlayer/assets";
                  out_generated := "/site/.markdownlayer/generated" |};
     definitions := defs;
     mdAsMarkdoc := None |}.

Definition config : ResolvedConfig := config_of None [("blog", blog)].

Definition options : GenerateDocsOptions :=
  {| opt_schema := Some schema; opt_format := None;
     opt_type := "blog"; opt_config := config |}.

Definition a_md : string := "/site/content/blog/a.md".
Definition b_md : string := "/site/content/blog/b.md".
Definition c_md : string := "/site/content/blog/c.md".

Definition files (cwd : string) : list string :=
  if bool_decide (cwd = "/site/content/blog") then [a_md; b_md; c_md] else [].

(** The filesystem is the two parameters: the fingerprint and the text of
    every file. *)
Definition env (mtime read : string → string) (cfg : ResolvedConfig) : Env :=
  {| join := path_join;
     relative := path_relative;
     extname := NodePath.extname;
     globby := λ _ cwd, files cwd;
     mtimeMs_toString := mtime;
     readFile := read;
     matter := gray_matter;
     resolveSchema := rs_schema;
     getYamlErrorLine := λ _ _, 2%Z;
     idToFileName := λ id, id;
     makeVariableName := λ id, "doc_" +:+ String.substring (String.length id - 4) 1 id;
     getDataVariableName := λ type, type +:+ "s";
     autogeneratedNote := "// NOTE This file is auto-generated.";
     assertStatement := "";
     bundle := λ p, {| bundle_code := bp_contents p; bundle_errors := None |};
     getConfig := λ _ _ st, (cfg, (st, Js.empty)) |}.

Definition mtime0 (file : string) : string := "1700000000000".
Definition read0 (file : string) : string := "Title of " +:+ file.

(** The filesystem after [b.md] has been saved again. *)
Definition mtime1 (file : string) : string :=
  if bool_decide (file = b_md) then "1700000005000.25" else mtime0 file.

(** The text of [b.md] after a second edition. *)
Definition read2 (file : string) : string :=
  if bool_decide (file = b_md) then "Second edition" else read0 file.

(** The filesystem after [b.md] has been emptied. *)
Definition read1 (file : string) : string :=
  if bool_decide (file = b_md) then "" else read0 file.

Definition world0 : World :=
  {| cache_items := ∅; cache_uniques := Js.empty; store := ∅; trace := [] |}.

(** A watching process after its initial pass: the three files are cached
    and [uniques] records a value owned by each of two of them. *)
Definition world1 : World :=
  let w := (generateDocuments (env mtime0 read0 config) options world0).2 in
  {| cache_items := cache_items w;
     cache_uniques := [("slug:a", a_md); ("slug:b", b_md)];
     store := cache_items w;
     trace := [] |}.

End Demo.

(** ** The naming utilities

    A string is the sequence of its code units, each of them a byte here:
    the ids, types and paths the utilities are given are ASCII, and the
    character classes of the regular expressions below are ASCII classes.
    The functions of [change-case], [inflection], [github-slugger] and
    [node:path] that the utilities call are variables of the section. *)

Module Utils.

Definition code (c : ascii) : N := N_of_ascii c.

Definition is_digit (c : ascii) : bool := ((48 <=? code c) && (code c <=? 57))%N.
Definition is_upper (c : ascii) : bool := ((65 <=? code c) && (code c <=? 90))%N.
Definition is_lower (c : ascii) : bool := ((97 <=? code c) && (code c <=? 122))%N.

(** [[a-zA-Z0-9]] *)
Definition is_alnum (c : ascii) : bool := is_lower c || is_upper c || is_digit c.

(** [[A-Z0-9_]] with the [i] flag *)
Definition is_word (c : ascii) : bool := is_alnum c || bool_decide (c = "_"%char).

(** [toUpperCase] and [toLowerCase] on a letter or a digit. *)
Definition to_upper (c : ascii) : ascii :=
  if is_lower c then ascii_of_N (code c - 32) else c.
Definition to_lower (c : ascii) : ascii :=
  if is_upper c then ascii_of_N (code c + 32) else c.

Fixpoint map_chars (f : ascii → ascii) (s : string) : string :=
  match s with
  | EmptyString => EmptyString
  | String c r => String (f c) (map_chars f r)
  end.

(** [/^[0-9]/.test(str)] *)
Definition starts_with_digit (str : string) : bool :=
  match str with
  | EmptyString => false
  | String c _ => is_digit c
  end.

Definition leftPadWithUnderscoreIfStartsWithNumber (str : string) : string :=
  if starts_with_digit str then "_" +:+ str else str.

(** [.replace(/\//g, '__')] *)
Fixpoint replace_slashes (s : string) : string :=
  match s with
  | EmptyString => EmptyString
  | String c r =>
      if bool_decide (c = "/"%char) then "__" +:+ replace_slashes r
      else String c (replace_slashes r)
  end.

Definition idToFileName (id : string) : string :=
  replace_slashes (leftPadWithUnderscoreIfStartsWithNumber id).

(** [.replace(/[^A-Z0-9_]/gi, '/0')] *)
Fixpoint replace_non_word (s : string) : string :=
  match s with
  | EmptyString => EmptyString
  | String c r =>
      if is_word c then String c (replace_non_word r)
      else "/0" +:+ replace_non_word r
  end.

(** [.replace(/[^a-zA-Z0-9]+/g, ' ')]: a run of other characters becomes
    one space; [in_run] tells that the run has already been replaced. *)
Fixpoint collapse_non_alnum (in_run : bool) (s : string) : string :=
  match s with
  | EmptyString => EmptyString
  | String c r =>
      if is_alnum c then String c (collapse_non_alnum false r)
      else if in_run then collapse_non_alnum true r
      else String " " (collapse_non_alnum true r)
  end.

(** [s.split(sep)] for a separator of one character: never empty, the
    empty string splits into one empty piece. *)
Fixpoint split (sep : ascii) (s : string) : list string :=
  match s with
  | EmptyString => [EmptyString]
  | String c r =>
      if bool_decide (c = sep) then EmptyString :: split sep r
      else match split sep r with
           | w :: ws => String c w :: ws
           | [] => [String c EmptyString]
           end
  end.

(** [word.charAt(0).toUpperCase() + word.slice(1).toLowerCase()] *)
Definition capitalize (word : string) : string :=
  match word with
  | EmptyString => EmptyString
  | String c r => String (to_upper c) (map_chars to_lower r)
  end.

Definition toPascalCase (str : string) : string :=
  String.concat "" (capitalize <$> split " " (collapse_non_alnum false str)).

(** [boolean | DocumentDefinitionGitOptions], the fields of the object
    being optional. *)
Inductive GitParam :=
| GitFlag (b : bool)
| GitObject (updated authors : option bool).

Record DocumentDefinitionGitOptions := {
  git_updated : bool;
  git_authors : bool;
}.

Definition getDocumentDefinitionGitOptions (git : GitParam)
    : DocumentDefinitionGitOptions :=
  match git with
  | GitFlag false => {| git_updated := false; git_authors := false |}
  | GitFlag true => {| git_updated := true; git_authors := false |}
  | GitObject updated authors =>
      {| git_updated := default true updated;
         git_authors := default false authors |}
  end.

Section Libraries.
Variable camelCase : string → string.
Variables pluralize singularize : string → string.
Variable githubSlug : string → string.
Variables extname normalize : string → string.
Variable separator : ascii.

(** [s.replace(new RegExp(pattern + '$'), '')], the pattern being an
    extension returned by [extname]. *)
Variable replace_at_end : string → string → string.

Definition makeVariableName (id : string) : string :=
  leftPadWithUnderscoreIfStartsWithNumber
    (camelCase (replace_non_word (idToFileName id))).

Definition getDataVariableName (type : string) : string :=
  "all" +:+ pluralize (toPascalCase type).

Definition generateTypeName (type : string) : string :=
  singularize (toPascalCase type).




End Libraries.

End Utils.

(** ** Vocabulary of the statements *)

(** The directory of a type and the files [globby] finds there. *)
Definition definition_dir (env : Env) (options : GenerateDocsOptions) : string :=
  join env [contentDirPath (opt_config options); opt_type options].

Definition effective_patterns (options : GenerateDocsOptions) : Patterns :=
  default default_patterns (patterns (opt_config options)).

Definition discovered (env : Env) (options : GenerateDocsOptions) : list string :=
  globby env (effective_patterns options) (definition_dir env options).

(** The options [generateInner] builds for an entry of [definitions]. *)
Definition options_of (config : ResolvedConfig)
    (td : string * DocumentDefinition) : GenerateDocsOptions :=
  {| opt_schema := def_schema td.2; opt_format := def_format td.2;
     opt_type := td.1; opt_config := config |}.

(** The file is served from the cache: the negation of [changed]. *)
Definition cache_hit (env : Env) (w : World) (file : string) : bool :=
  negb (changed (cache_items w !! file) (mtimeMs_toString env file)).

(** The document the cache holds for a file. *)
Definition cached_document (w : World) (file : string) : option Data :=
  document <$> cache_items w !! file.

Definition is_collection_write (e : Event) : bool :=
  match e with
  | WriteFile _ (JsonCollection _) => true
  | _ => false
  end.

(** Format detection the way the specification lists it: three markdown
    extensions, the two dedicated ones, and a failure for anything else. *)
Definition detection_as_specified (env : Env) (file : string) : Prop :=
  let ext := extname env file in
  (ext ∈ [".md"; ".markdown"; ".mdown"] → getFormat env file detect = OK md)
  ∧ (ext = ".mdx" → getFormat env file detect = OK mdx)
  ∧ (ext = ".mdoc" → getFormat env file detect = OK mdoc)
  ∧ (ext ∉ [".md"; ".markdown"; ".mdown"; ".mdx"; ".mdoc"] →
     getFormat env file detect = Err (FormatDetectionError file)).

(** The options handed to [resolveSchema] for a file. *)
Definition schema_options (env : Env) (options : GenerateDocsOptions)
    (file : string) : ResolveSchemaOptions :=
  {| rs_type := opt_type options; rs_schema := opt_schema options;
     rs_path := file; rs_contents := readFile env file;
     rs_frontmatter := pm_data (matter env (readFile env file));
     rs_config := opt_config options |}.

(** The document of a file fails schema validation, with this error. *)
Definition fails_validation (env : Env) (options : GenerateDocsOptions)
    (file : string) (error : ZodError) : Prop :=
  ∃ schema,
    resolveSchema env (schema_options env options file) = Some schema
    ∧ safeParseAsync schema (pm_data (matter env (readFile env file))) =
        ParseFailure error.

(** The error raised for a file whose first issue is [issue]. *)
Definition validation_error (env : Env) (options : GenerateDocsOptions)
    (file : string) (error : ZodError) (issue : ZodIssue) : Error :=
  InvalidDocumentFrontmatterError
    (opt_type options)
    (relative env (configPath (opt_config options)) file)
    error
    {| loc_file := file;
       loc_line :=
         getYamlErrorLine env (pm_matter (matter env (readFile env file)))
           (String_of (head (issue_path issue)));
       loc_column := 0 |}.


(** The events of recomputing a file: reading it and writing its artifact. *)
Definition is_recompute_event (e : Event) : bool :=
  match e with
  | ReadFile _ | WriteFile _ (JsonDocument _) => true
  | _ => false
  end.

(** A summary in which every document came from the cache. *)
Definition all_cached (c : GeneratedCount) : Prop :=
  generated c = 0 ∧ cached c = total c.

(** The extensions that detection accepts. *)
Definition detected_extensions : list string := mdExtensions ++ [".mdx"; ".mdoc"].

(** The effects of [generateDocuments]: on the filesystem only. *)
Definition is_fs_event (e : Event) : bool :=
  match e with
  | Mkdir _ | Glob _ _ | Stat _ | ReadFile _ | WriteFile _ _ => true
  | _ => false
  end.

(** The effects of a whole pass. *)
Definition is_pass_event (e : Event) : bool :=
  match e with
  | OutputAssets | CacheSave | Log (GeneratedStats _ _) => true
  | _ => is_fs_event e
  end.

(** The files a call may process without throwing: served from the cache,
    or accepted by the schema step. *)
Definition processable (env : Env) (options : GenerateDocsOptions)
    (w : World) (file : string) : Prop :=
  cache_hit env w file = true ∨ ∃ data, validate env options file = OK data.

(** The characters of a string. *)
Definition chars (s : string) : list ascii := String.list_ascii_of_string s.
Arguments chars : simpl never.

(** * Properties *)

(** ** Objects *)

Section JsFacts.
Context {V : Type}.
Implicit Types (o : Js.object V) (k : string) (v : V).

Lemma set_fresh o k v : k ∉ o.*1 → Js.set o k v = o ++ [(k, v)].
Proof.
  induction o as [|[k' v'] o IH]; simpl; [done|].
  intros Hk. apply not_elem_of_cons in Hk as [Hne Hk].
  destruct (decide (k' = k)); [congruence|]. by rewrite IH.
Qed.

Lemma set_keys_present o k v : k ∈ o.*1 → (Js.set o k v).*1 = o.*1.
Proof.
  induction o as [|[k' v'] o IH]; simpl.
  - by intros ?%elem_of_nil.
  - intros Hk. destruct (decide (k' = k)); [done|].
    simpl. f_equal. apply IH. simpl in Hk.
    apply elem_of_cons in Hk as [?|?]; [congruence|done].
Qed.

Lemma insert_index_length n (kv : string * V) l :
  length (Js.insert_index n kv l) = S (length l).
Proof.
  induction l as [|[m kv'] l IH]; simpl; [done|].
  destruct (n <? m)%N; simpl; by rewrite ?IH.
Qed.

(** Enumeration reorders the properties, it neither drops nor repeats one. *)
Lemma entries_length o : length (Js.entries o) = length o.
Proof.
  unfold Js.entries. rewrite length_app, length_fmap.
  unfold Js.index_props, Js.string_props.
  induction o as [|[k v] o IH]; [done|].
  rewrite (filter_cons _ (k, v)). simpl.
  destruct (Js.array_index k) eqn:Hk; destruct (decide _) as [Hd|Hd];
    try done; simpl; rewrite ?insert_index_length, ?Nat.add_succ_r;
    simpl; f_equal; exact IH.
Qed.

Lemma keys_length o : length (Js.keys o) = length o.
Proof. unfold Js.keys. by rewrite length_fmap, entries_length. Qed.

(** Without array-index keys the enumeration order is the creation order. *)
Lemma entries_creation_order o :
  Forall (λ k, Js.array_index k = None) o.*1 → Js.entries o = o.
Proof.
  intros Ho. unfold Js.entries.
  assert (Js.index_props o = [] ∧ Js.string_props o = o) as [H1 H2];
    [|by rewrite H1, H2].
  unfold Js.index_props, Js.string_props.
  induction o as [|[k v] o IH]; [done|].
  rewrite fmap_cons in Ho. apply Forall_cons in Ho as [Hk Ho]. simpl in Hk.
  destruct (IH Ho) as [IH1 IH2].
  rewrite (filter_cons _ (k, v)). simpl. rewrite Hk, IH1.
  split; [done|]. destruct (decide _); [|done]. f_equal. exact IH2.
Qed.

Lemma keys_creation_order o :
  Forall (λ k, Js.array_index k = None) o.*1 → Js.keys o = o.*1.
Proof. intros Ho. unfold Js.keys. by rewrite entries_creation_order. Qed.

Lemma values_creation_order o :
  Forall (λ k, Js.array_index k = None) o.*1 → Js.values o = o.*2.
Proof. intros Ho. unfold Js.values. by rewrite entries_creation_order. Qed.

End JsFacts.

(** ** The monad *)

Lemma for_each_app {A S} (f : A → S → M S) (l1 l2 : list A) (s : S) (w : World) :
  for_each f (l1 ++ l2) s w =
  match for_each f l1 s w with
  | (OK s', w') => for_each f l2 s' w'
  | (Err e, w') => (Err e, w')
  end.
Proof.
  revert s w. induction l1 as [|x l1 IH]; intros s w; simpl; [done|].
  unfold bind. destruct (f x s w) as [[s'|e] w']; [apply IH|done].
Qed.

Lemma emit_items e w : cache_items (emit e w) = cache_items w.
Proof. done. Qed.

Lemma emit_store e w : store (emit e w) = store w.
Proof. done. Qed.

Lemma emit_uniques e w : cache_uniques (emit e w) = cache_uniques w.
Proof. done. Qed.

Lemma emit_trace e w : trace (emit e w) = trace w ++ [e].
Proof. done. Qed.

(** ** One iteration of the loop *)

Section StepFacts.
Variable env : Env.
Variable options : GenerateDocsOptions.
Variable definitionDir : string.

Local Abbreviation step := (process_file env options definitionDir).
Local Abbreviation mtime := (mtimeMs_toString env).

Lemma cache_hit_entry w file :
  cache_hit env w file = true ↔
  ∃ e, cache_items w !! file = Some e ∧ hash e = mtime file.
Proof.
  unfold cache_hit, changed. destruct (cache_items w !! file) as [e|].
  - rewrite negb_true_iff, bool_decide_eq_false. split.
    + intros H. exists e. split; [done|]. by destruct (decide (hash e = mtime file)).
    + intros (e' & [= <-] & He) Hne. done.
  - split; [done|]. by intros (e & ? & _).
Qed.

Lemma process_file_hit file l w e :
  cache_items w !! file = Some e → hash e = mtime file →
  step file l w =
  (OK {| n_cached := S (n_cached l); n_generated := n_generated l;
         docs := Js.set (docs l) file (document e) |},
   emit (Stat file) w).
Proof.
  intros He Hh. unfold process_file, bind, perform. simpl.
  rewrite He. simpl. rewrite bool_decide_eq_false_2; [done|]. by intros ?.
Qed.

Lemma process_file_miss file l w :
  cache_hit env w file = false →
  step file l w =
  match validate env options file with
  | OK data =>
      (OK {| n_cached := n_cached l; n_generated := S (n_generated l);
             docs := Js.set (docs l) file data |},
       set_items
         (<[file := {| hash := mtime file; entry_type := opt_type options;
                       document := data |}]> (cache_items w))
         (emit (WriteFile (output_json env options definitionDir file)
                  (JsonDocument data))
            (emit (ReadFile file) (emit (Stat file) w))))
  | Err e => (Err e, emit (ReadFile file) (emit (Stat file) w))
  end.
Proof.
  unfold cache_hit. rewrite negb_false_iff. intros Hc.
  unfold process_file, bind, perform. simpl. rewrite Hc.
  unfold recompute, bind, perform, lift, cache_set, ret.
  by destruct (validate env options file).
Qed.

(** What an iteration that completed has done. *)
Lemma process_file_ok_inv file l w l1 w1 :
  step file l w = (OK l1, w1) →
  ∃ d,
    docs l1 = Js.set (docs l) file d
    ∧ cached_document w1 file = Some d
    ∧ cache_hit env w1 file = true
    ∧ (∀ f, f ≠ file → cache_items w1 !! f = cache_items w !! f)
    ∧ store w1 = store w
    ∧ cache_uniques w1 = cache_uniques w
    ∧ ((cache_hit env w file = true
        ∧ n_cached l1 = S (n_cached l) ∧ n_generated l1 = n_generated l
        ∧ cache_items w1 = cache_items w
        ∧ trace w1 = trace w ++ [Stat file])
       ∨ (cache_hit env w file = false
          ∧ validate env options file = OK d
          ∧ n_cached l1 = n_cached l ∧ n_generated l1 = S (n_generated l)
          ∧ cache_items w1 =
              <[file := {| hash := mtime file; entry_type := opt_type options;
                           document := d |}]> (cache_items w)
          ∧ trace w1 =
              trace w ++ [Stat file; ReadFile file;
                          WriteFile (output_json env options definitionDir file)
                            (JsonDocument d)])).
Proof.
  destruct (cache_hit env w file) eqn:Hh.
  - pose proof Hh as (e & He & Hhash)%cache_hit_entry.
    rewrite (process_file_hit _ _ _ _ He Hhash). intros [= <- <-].
    exists (document e). simpl. unfold cached_document. rewrite emit_items, He.
    repeat split; try done. by left.
  - rewrite (process_file_miss _ _ _ Hh).
    destruct (validate env options file) as [d|e] eqn:Hv; [|done].
    intros [= <- <-]. exists d. simpl. unfold cached_document. simpl.
    rewrite lookup_insert_eq. repeat split; try done.
    + apply cache_hit_entry. eexists. simpl. rewrite lookup_insert_eq. done.
    + intros f Hf. by rewrite lookup_insert_ne.
    + right. repeat split; try done. by rewrite <- !app_assoc.
Qed.

(** An iteration throws only from the schema step of a changed file. *)
Lemma process_file_err_inv file l w e w1 :
  step file l w = (Err e, w1) →
  cache_hit env w file = false
  ∧ validate env options file = Err e
  ∧ w1 = emit (ReadFile file) (emit (Stat file) w).
Proof.
  destruct (cache_hit env w file) eqn:Hh.
  - pose proof Hh as (e' & He & Hhash)%cache_hit_entry.
    by rewrite (process_file_hit _ _ _ _ He Hhash).
  - rewrite (process_file_miss _ _ _ Hh).
    destruct (validate env options file) as [d|e'] eqn:Hv; [done|].
    by intros [= <- <-].
Qed.

End StepFacts.

(** ** The loop over the discovered files *)

Section LoopFacts.
Variable env : Env.
Variable options : GenerateDocsOptions.
Variable definitionDir : string.

Local Abbreviation step := (process_file env options definitionDir).
Local Abbreviation loop := (for_each (process_file env options definitionDir)).

Lemma cache_hit_ext w w' file :
  cache_items w' !! file = cache_items w !! file →
  cache_hit env w' file = cache_hit env w file.
Proof. unfold cache_hit. by intros ->. Qed.

(** Every file is counted once, as cached or as generated. *)
Lemma loop_counts files l w l' w' :
  loop files l w = (OK l', w') →
  n_cached l' + n_generated l' = n_cached l + n_generated l + length files.
Proof.
  revert l w. induction files as [|x files IH]; intros l w; simpl.
  - intros [= <- <-]. lia.
  - unfold bind. destruct (step x l w) as [[l1|e] w1] eqn:Hx; [|done].
    intros Hrest. apply IH in Hrest.
    apply process_file_ok_inv in Hx as (d & _ & _ & _ & _ & _ & _ & Hcase).
    destruct Hcase as [(_ & ? & ? & _)|(_ & _ & ? & ? & _)]; lia.
Qed.

(** The loop leaves alone the persisted store, [uniques], and the cache
    entries of the files it does not visit; whether it completes or not. *)
Lemma loop_frame files l w r w' :
  loop files l w = (r, w') →
  store w' = store w
  ∧ cache_uniques w' = cache_uniques w
  ∧ ∀ f, f ∉ files → cache_items w' !! f = cache_items w !! f.
Proof.
  revert l w. induction files as [|x files IH]; intros l w; simpl.
  - by intros [= <- <-].
  - unfold bind. destruct (step x l w) as [[l1|e] w1] eqn:Hx.
    + intros Hrest. apply IH in Hrest as (Hs & Hu & Hi).
      apply process_file_ok_inv in Hx as (d & _ & _ & _ & Hi1 & Hs1 & Hu1 & _).
      repeat split; [congruence..|].
      intros f [Hfx Hf]%not_elem_of_cons. rewrite Hi by done. by apply Hi1.
    + intros [= <- <-].
      by apply process_file_err_inv in Hx as (_ & _ & ->).
Qed.

(** A cache hit stays a cache hit: entries are only ever written with the
    current fingerprint of their file. *)
Lemma loop_keeps_hits files l w r w' f :
  loop files l w = (r, w') →
  cache_hit env w f = true → cache_hit env w' f = true.
Proof.
  revert l w. induction files as [|x files IH]; intros l w; simpl.
  - by intros [= <- <-].
  - unfold bind. destruct (step x l w) as [[l1|e] w1] eqn:Hx.
    + intros Hrest Hf. apply (IH _ _ Hrest).
      apply process_file_ok_inv in Hx as (d & _ & _ & Hx1 & Hi1 & _).
      destruct (decide (f = x)) as [->|Hne]; [done|].
      rewrite <- Hf. apply cache_hit_ext. by apply Hi1.
    + intros [= <- <-] Hf.
      by apply process_file_err_inv in Hx as (_ & _ & ->).
Qed.

(** After a completed loop every visited file is a cache hit. *)
Lemma loop_establishes_hits files l w l' w' f :
  loop files l w = (OK l', w') → f ∈ files → cache_hit env w' f = true.
Proof.
  revert l w. induction files as [|x files IH]; intros l w; simpl.
  - by intros _ ?%elem_of_nil.
  - unfold bind. destruct (step x l w) as [[l1|e] w1] eqn:Hx; [|done].
    intros Hrest [->|Hf]%elem_of_cons; [|by eapply IH].
    apply (loop_keeps_hits _ _ _ _ _ _ Hrest).
    by apply process_file_ok_inv in Hx as (d & _ & _ & Hx1 & _).
Qed.

(** When every file is a hit the loop only stats the files. *)
Lemma loop_all_hits files l w :
  (∀ f, f ∈ files → cache_hit env w f = true) →
  ∃ l' w',
    loop files l w = (OK l', w')
    ∧ n_cached l' = n_cached l + length files
    ∧ n_generated l' = n_generated l
    ∧ cache_items w' = cache_items w
    ∧ trace w' = trace w ++ (Stat <$> files).
Proof.
  revert l w. induction files as [|x files IH]; intros l w Hall; simpl.
  - exists l, w. rewrite app_nil_r, Nat.add_0_r. by repeat split.
  - assert (cache_hit env w x = true) as Hx by (apply Hall; left).
    apply cache_hit_entry in Hx as (e & He & Hh).
    unfold bind. rewrite (process_file_hit _ _ _ _ _ _ _ He Hh).
    edestruct (IH {| n_cached := S (n_cached l); n_generated := n_generated l;
                     docs := Js.set (docs l) x (document e) |}
                 (emit (Stat x) w)) as (l' & w' & Hl & Hc & Hg & Hi & Ht).
    { intros f Hf. rewrite <- (Hall f) by (by right). by apply cache_hit_ext. }
    exists l', w'. rewrite Hl, Hc, Hg, Hi, Ht. simpl.
    repeat split; try done. by rewrite <- app_assoc.
Qed.

(** [docs] receives the visited files in order, each with the document the
    cache holds for it when the loop ends. *)
Lemma loop_docs files l w l' w' :
  NoDup files → (∀ f, f ∈ files → f ∉ (docs l).*1) →
  loop files l w = (OK l', w') →
  ∃ ds, docs l' = docs l ++ zip files ds
        ∧ Forall2 (λ f d, cached_document w' f = Some d) files ds.
Proof.
  revert l w. induction files as [|x files IH]; intros l w Hnd Hfresh; simpl.
  - intros [= <- <-]. exists []. by rewrite app_nil_r.
  - unfold bind. destruct (step x l w) as [[l1|e] w1] eqn:Hx; [|done].
    intros Hrest. apply NoDup_cons in Hnd as [Hx_notin Hnd].
    apply process_file_ok_inv in Hx as (d & Hd & Hc & _).
    rewrite set_fresh in Hd by (apply Hfresh; left).
    destruct (IH l1 w1 Hnd) as (ds & Hds & Hall); [|done|].
    { intros f Hf. rewrite Hd, fmap_app, elem_of_app. simpl.
      intros [Hin|Hin%list_elem_of_singleton].
      - by apply (Hfresh f); [right|].
      - by subst. }
    exists (d :: ds). split.
    + rewrite Hds, Hd. by rewrite <- app_assoc.
    + constructor; [|done]. unfold cached_document in *.
      by destruct (loop_frame _ _ _ _ _ Hrest) as (_ & _ & ->).
Qed.

End LoopFacts.

(** ** One document type *)

Section TypeFacts.
Variable env : Env.
Variable options : GenerateDocsOptions.

Local Abbreviation dir := (definition_dir env options).
Local Abbreviation files := (discovered env options).
Local Abbreviation generated_dir :=
  (out_generated (output (opt_config options))).
Local Abbreviation locals0 :=
  {| n_cached := 0; n_generated := 0; docs := Js.empty |}.

(** The world in which the loop starts. *)
Local Abbreviation entered w :=
  (emit (Mkdir (join env [generated_dir; opt_type options]))
     (emit (Glob (effective_patterns options) dir) w)).

Lemma generateDocuments_no_patterns w :
  patterns_length (effective_patterns options) = 0 →
  generateDocuments env options w = (Err ConfigNoPatternsError, w).
Proof.
  intros H. unfold generateDocuments. fold (effective_patterns options).
  by rewrite bool_decide_eq_true_2.
Qed.

Lemma generateDocuments_eq w :
  patterns_length (effective_patterns options) ≠ 0 →
  generateDocuments env options w =
  match for_each (process_file env options dir) files locals0 (entered w) with
  | (OK l, w1) =>
      (OK {| cached := n_cached l; generated := n_generated l;
             total := length (Js.keys (docs l)) |},
       emit (WriteFile (join env [generated_dir; opt_type options; "index.mjs"])
               (SourceText (import_module env (opt_type options) dir
                              (Js.keys (docs l)))))
         (emit (WriteFile
                  (join env [generated_dir; opt_type options; "index.json"])
                  (JsonCollection (Js.values (docs l)))) w1))
  | (Err e, w1) => (Err e, w1)
  end.
Proof.
  intros H. unfold generateDocuments. fold (effective_patterns options).
  rewrite bool_decide_eq_false_2 by done.
  unfold bind, perform, ret. simpl.
  unfold discovered, definition_dir.
  by destruct (for_each _ _ _ _) as [[l|e] w1].
Qed.

Lemma generateDocuments_frame w r w' :
  generateDocuments env options w = (r, w') →
  store w' = store w
  ∧ cache_uniques w' = cache_uniques w
  ∧ ∀ f, f ∉ files → cache_items w' !! f = cache_items w !! f.
Proof.
  destruct (decide (patterns_length (effective_patterns options) = 0)) as [H|H].
  - rewrite generateDocuments_no_patterns by done. by intros [= <- <-].
  - rewrite generateDocuments_eq by done.
    destruct (for_each _ _ _ _) as [[l|e] w1] eqn:Hl;
      intros [= <- <-]; by apply loop_frame in Hl.
Qed.

Lemma generateDocuments_keeps_hits w r w' f :
  generateDocuments env options w = (r, w') →
  cache_hit env w f = true → cache_hit env w' f = true.
Proof.
  destruct (decide (patterns_length (effective_patterns options) = 0)) as [H|H].
  - rewrite generateDocuments_no_patterns by done. by intros [= <- <-].
  - rewrite generateDocuments_eq by done.
    destruct (for_each _ _ _ _) as [[l|e] w1] eqn:Hl;
      intros [= <- <-] Hf;
      by apply (loop_keeps_hits _ _ _ _ _ _ _ _ f) in Hl.
Qed.

Lemma generateDocuments_establishes_hits w c w' f :
  generateDocuments env options w = (OK c, w') →
  f ∈ files → cache_hit env w' f = true.
Proof.
  destruct (decide (patterns_length (effective_patterns options) = 0)) as [H|H].
  - by rewrite generateDocuments_no_patterns.
  - rewrite generateDocuments_eq by done.
    destruct (for_each _ _ _ _) as [[l|e] w1] eqn:Hl; [|done].
    intros [= <- <-] Hf.
    by apply (loop_establishes_hits _ _ _ _ _ _ _ _ f) in Hl.
Qed.

(** In a completed call of a type with distinct files, [total] is the
    number of files, and so is [cached + generated]. *)
Lemma generateDocuments_total w c w' :
  NoDup files →
  generateDocuments env options w = (OK c, w') →
  total c = length files ∧ cached c + generated c = length files.
Proof.
  intros Hnd.
  destruct (decide (patterns_length (effective_patterns options) = 0)) as [H|H].
  - by rewrite generateDocuments_no_patterns.
  - rewrite generateDocuments_eq by done.
    destruct (for_each _ _ _ _) as [[l|e] w1] eqn:Hl; [|done].
    intros [= <- <-]. simpl. split.
    + apply loop_docs in Hl as (ds & -> & Hds); [|done|by intros ? _ ?%elem_of_nil].
      rewrite keys_length. simpl. rewrite length_zip.
      apply Forall2_length in Hds. lia.
    + by apply loop_counts in Hl.
Qed.

(** A call that finds every file unchanged. *)
Lemma generateDocuments_all_hits w :
  patterns_length (effective_patterns options) ≠ 0 →
  NoDup files →
  (∀ f, f ∈ files → cache_hit env w f = true) →
  ∃ w',
    generateDocuments env options w =
      (OK {| cached := length files; generated := 0; total := length files |}, w')
    ∧ cache_items w' = cache_items w.
Proof.
  intros Hp Hnd Hall.
  destruct (loop_all_hits env options dir files locals0 (entered w))
    as (l & w1 & Hl & Hc & Hg & Hi & _); [done|].
  destruct (generateDocuments env options w) as [r w'] eqn:Hgd.
  pose proof Hgd as Hgd'. rewrite generateDocuments_eq, Hl in Hgd' by done.
  injection Hgd' as <- <-.
  apply generateDocuments_total in Hgd as [Ht _]; [|done]. simpl in *.
  exists (emit (WriteFile (join env [generated_dir; opt_type options; "index.mjs"])
                  (SourceText (import_module env (opt_type options) dir
                                 (Js.keys (docs l)))))
            (emit (WriteFile
                     (join env [generated_dir; opt_type options; "index.json"])
                     (JsonCollection (Js.values (docs l)))) w1)).
  split; [|done]. by rewrite Ht, Hc, Hg.
Qed.

End TypeFacts.

(** ** Summaries *)

Section SummaryFacts.
Context {V : Type}.
Implicit Types (o : Js.object V) (P : V → Prop).

Lemma insert_index_elem n (kv : string * V) l x :
  x ∈ Js.insert_index n kv l → x = (n, kv) ∨ x ∈ l.
Proof.
  induction l as [|[m kv'] l IH]; simpl.
  - intros ?%list_elem_of_singleton. by left.
  - destruct (n <? m)%N.
    + intros [->|?]%elem_of_cons; [by left|by right].
    + intros [->|Hx]%elem_of_cons; [right; left|].
      destruct (IH Hx) as [->|?]; [by left|right; by right].
Qed.

Lemma index_props_elem o x : x ∈ Js.index_props o → x.2 ∈ o.
Proof.
  unfold Js.index_props. induction o as [|kv o IH]; simpl.
  - by intros ?%elem_of_nil.
  - destruct (Js.array_index kv.1).
    + intros [->|Hx]%insert_index_elem; [left|right; by apply IH].
    + intros Hx. right. by apply IH.
Qed.

(** Enumeration only lists properties the object has. *)
Lemma entries_elem o x : x ∈ Js.entries o → x ∈ o.
Proof.
  unfold Js.entries. rewrite elem_of_app. intros [Hx|Hx].
  - apply list_elem_of_fmap in Hx as (y & -> & Hy). by apply index_props_elem.
  - unfold Js.string_props in Hx. by apply list_elem_of_filter in Hx as [_ ?].
Qed.

Lemma values_Forall P o : Forall P o.*2 → Forall P (Js.values o).
Proof.
  rewrite !Forall_forall. intros Ho v Hv.
  unfold Js.values in Hv. apply list_elem_of_fmap in Hv as (x & -> & Hx).
  apply Ho. apply list_elem_of_fmap. exists x. split; [done|].
  by apply entries_elem.
Qed.

Lemma set_Forall P o k v : Forall P o.*2 → P v → Forall P (Js.set o k v).*2.
Proof.
  intros Ho Hv. induction o as [|[k' v'] o IH]; simpl.
  - by constructor.
  - rewrite fmap_cons in Ho. apply Forall_cons in Ho as [Hv' Ho].
    destruct (decide (k' = k)); simpl; constructor; auto.
Qed.

Lemma set_not_nil o k v : Js.set o k v ≠ [].
Proof. destruct o as [|[k' v'] o]; simpl; [done|]. by destruct (decide _). Qed.

Lemma values_not_nil o : o ≠ [] → Js.values o ≠ [].
Proof.
  intros Ho Hv. apply (f_equal length) in Hv.
  unfold Js.values in Hv. rewrite length_fmap, entries_length in Hv.
  by destruct o.
Qed.

End SummaryFacts.

Lemma add_count_all_cached a c :
  all_cached a → all_cached c → all_cached (add_count a c).
Proof. unfold all_cached, add_count. simpl. lia. Qed.

Lemma reduce_all_cached (l : list GeneratedCount) :
  l ≠ [] → Forall all_cached l →
  ∃ c, reduce add_count l = OK c ∧ all_cached c.
Proof.
  destruct l as [|x r]; [done|]. intros _ [Hx Hr]%Forall_cons.
  exists (foldl add_count x r). split; [done|].
  revert x Hx. induction Hr as [|y r Hy Hr IH]; intros x Hx; simpl; [done|].
  apply IH. by apply add_count_all_cached.
Qed.

(** ** A pass over every type *)

Section PassFacts.
Variable env : Env.
Variable config : ResolvedConfig.

Local Abbreviation types := (for_each (run_definition env config)).
Local Abbreviation files_of td := (discovered env (options_of config td)).

Lemma run_definition_eq td gens w :
  run_definition env config td gens w =
  match generateDocuments env (options_of config td) w with
  | (OK c, w') => (OK (Js.set gens td.1 c), w')
  | (Err e, w') => (Err e, w')
  end.
Proof.
  destruct td as [type def]. unfold run_definition, options_of, bind, ret.
  simpl. by destruct (generateDocuments _ _ _) as [[c|e] w'].
Qed.

Lemma types_keep_hits tds gens w r w' f :
  types tds gens w = (r, w') →
  cache_hit env w f = true → cache_hit env w' f = true.
Proof.
  revert gens w. induction tds as [|td tds IH]; intros gens w; simpl.
  - by intros [= <- <-].
  - unfold bind. rewrite run_definition_eq.
    destruct (generateDocuments _ _ _) as [[c|e] w1] eqn:Hgd.
    + intros Hrest Hf. apply (IH _ _ Hrest).
      by apply (generateDocuments_keeps_hits _ _ _ _ _ _ Hgd).
    + intros [= <- <-]. by apply (generateDocuments_keeps_hits _ _ _ _ _ _ Hgd).
Qed.

(** After a completed pass every discovered file of every type is a hit. *)
Lemma types_establish_hits tds gens w gens' w' td f :
  types tds gens w = (OK gens', w') →
  td ∈ tds → f ∈ files_of td → cache_hit env w' f = true.
Proof.
  revert gens w. induction tds as [|td0 tds IH]; intros gens w; simpl.
  - by intros _ ?%elem_of_nil.
  - unfold bind. rewrite run_definition_eq.
    destruct (generateDocuments _ _ _) as [[c|e] w1] eqn:Hgd; [|done].
    intros Hrest [->|Htd]%elem_of_cons Hf; [|by eapply IH].
    apply (types_keep_hits _ _ _ _ _ _ Hrest).
    by apply (generateDocuments_establishes_hits _ _ _ _ _ _ Hgd).
Qed.

(** A completed pass over at least one type means there are patterns. *)
Lemma types_ok_patterns td tds gens w gens' w' :
  types (td :: tds) gens w = (OK gens', w') →
  patterns_length (default default_patterns (patterns config)) ≠ 0.
Proof.
  simpl. unfold bind. rewrite run_definition_eq. intros H Hp.
  by rewrite generateDocuments_no_patterns in H.
Qed.

(** A pass in which every file is a hit: nothing is generated, for any
    type, and the cache is left as it is. *)
Lemma types_all_hits tds gens w :
  patterns_length (default default_patterns (patterns config)) ≠ 0 →
  (∀ td, td ∈ tds → NoDup (files_of td)) →
  (∀ td f, td ∈ tds → f ∈ files_of td → cache_hit env w f = true) →
  Forall all_cached gens.*2 →
  ∃ gens' w',
    types tds gens w = (OK gens', w')
    ∧ cache_items w' = cache_items w
    ∧ Forall all_cached gens'.*2
    ∧ (tds ≠ [] → gens' ≠ []).
Proof.
  intros Hp. revert gens w.
  induction tds as [|td tds IH]; intros gens w Hnd Hall Hgens; simpl.
  - by exists gens, w.
  - unfold bind. rewrite run_definition_eq.
    destruct (generateDocuments_all_hits env (options_of config td) w)
      as (w1 & -> & Hi); [done|apply Hnd; left|intros f; apply Hall; left|].
    destruct (IH (Js.set gens td.1
                    {| cached := length (files_of td); generated := 0;
                       total := length (files_of td) |}) w1)
      as (gens' & w' & Hrest & Hi' & Hg' & Hne).
    + intros td' Htd'. apply Hnd. by right.
    + intros td' f Htd' Hf. rewrite <- (Hall td' f) by (done || by right).
      apply cache_hit_ext. by rewrite Hi.
    + by apply set_Forall.
    + exists gens', w'. rewrite Hrest. repeat split; [congruence|done|].
      intros _. destruct tds as [|td' tds]; [|by apply Hne].
      simpl in Hrest. injection Hrest as <- _. apply set_not_nil.
Qed.

End PassFacts.

(** ** Idempotence under no change *)

Lemma generateInner_ok_inv env config w0 w1 :
  generateInner env config w0 = (OK tt, w1) →
  ∃ gens wa,
    run_definitions env config w0 = (OK gens, wa)
    ∧ Js.entries (definitions config) ≠ []
    ∧ store w1 = cache_items wa.
Proof.
  unfold generateInner, bind.
  destruct (run_definitions env config w0) as [[gens|e] wa] eqn:Hrun; [|done].
  unfold perform, cache_save, lift. simpl.
  destruct (reduce add_count (Js.values gens)) as [c|e] eqn:Hred; [|done].
  intros [= <-]. exists gens, wa. repeat split.
  intros Hnil. unfold run_definitions in Hrun. rewrite Hnil in Hrun.
  simpl in Hrun. injection Hrun as <- _. done.
Qed.

(** C1 (idempotence under no change).  Take any set of content files: per
    type, the discovered files are distinct.  If a generation pass has
    completed and nothing is modified (the environment is the same), then a
    second pass that starts from the cache the first one persisted
    completes too; in it every type reports [generated = 0] and
    [cached = total], so do the aggregated counts, the cache entries are
    left as they are, and the pass logs [total] documents with [total] of
    them from the cache. *)
Theorem second_pass_all_cached env config w0 w1 :
  (∀ td, td ∈ Js.entries (definitions config) →
         NoDup (discovered env (options_of config td))) →
  generateInner env config w0 = (OK tt, w1) →
  ∀ w, cache_items w = store w1 →
  ∃ generations count wd w2,
    run_definitions env config w = (OK generations, wd)
    ∧ Forall all_cached (Js.values generations)
    ∧ reduce add_count (Js.values generations) = OK count
    ∧ generated count = 0 ∧ cached count = total count
    ∧ generateInner env config w = (OK tt, w2)
    ∧ cache_items w2 = cache_items w
    ∧ last (trace w2) = Some (Log (GeneratedStats (total count) (total count))).
Proof.
  intros Hnd Hfirst w Hw.
  apply generateInner_ok_inv in Hfirst as (gens1 & wa & Hrun1 & Hne & Hstore).
  unfold run_definitions in *.
  assert (patterns_length (default default_patterns (patterns config)) ≠ 0)
    as Hp.
  { destruct (Js.entries (definitions config)) as [|td tds]; [done|].
    by eapply types_ok_patterns. }
  destruct (types_all_hits env config (Js.entries (definitions config))
              Js.empty w Hp Hnd) as (gens & wd & Hrun & Hitems & Hall & Hgens).
  { intros td f Htd Hf.
    rewrite <- (types_establish_hits _ _ _ _ _ _ _ td f Hrun1 Htd Hf).
    apply cache_hit_ext. by rewrite Hw, Hstore. }
  { constructor. }
  apply values_Forall in Hall.
  destruct (reduce_all_cached (Js.values gens)) as (count & Hred & Hg & Hc);
    [by apply values_not_nil, Hgens|done|].
  eexists gens, count, wd, _.
  split; [done|]. split; [done|]. split; [done|]. split; [done|].
  split; [done|]. split; [|split].
  - unfold generateInner, bind, run_definitions. rewrite Hrun.
    unfold perform, cache_save, lift. simpl. rewrite Hred. reflexivity.
  - done.
  - simpl. rewrite last_snoc. by rewrite Hc.
Qed.

Lemma second_pass_all_cached_witness :
  let env := Demo.env Demo.mtime0 Demo.read0 Demo.config in
  let w1 := (generateInner env Demo.config Demo.world0).2 in
  ∃ generations count wd w2,
    run_definitions env Demo.config w1 = (OK generations, wd)
    ∧ Forall all_cached (Js.values generations)
    ∧ reduce add_count (Js.values generations) = OK count
    ∧ generated count = 0 ∧ cached count = total count
    ∧ generateInner env Demo.config w1 = (OK tt, w2)
    ∧ cache_items w2 = cache_items w1
    ∧ last (trace w2) = Some (Log (GeneratedStats (total count) (total count))).
Proof.
  intros env w1.
  apply (second_pass_all_cached env Demo.config Demo.world0 w1).
  - intros td Htd. apply (bool_decide_unpack _).
    apply list_elem_of_singleton in Htd as ->. by vm_compute.
  - by vm_compute.
  - by vm_compute.
Defined.

(** ** Precise invalidation *)

Lemma cache_hit_same_mtime env1 env2 w f :
  mtimeMs_toString env2 f = mtimeMs_toString env1 f →
  cache_hit env2 w f = cache_hit env1 w f.
Proof. unfold cache_hit. by intros ->. Qed.

Lemma cache_miss_new_mtime env1 env2 w f :
  mtimeMs_toString env2 f ≠ mtimeMs_toString env1 f →
  cache_hit env1 w f = true → cache_hit env2 w f = false.
Proof.
  intros Hne (e & He & Hh)%cache_hit_entry.
  unfold cache_hit, changed. rewrite He, negb_false_iff.
  apply bool_decide_eq_true_2. congruence.
Qed.

Lemma filter_recompute_stats (l : list string) :
  filter (λ e, is_recompute_event e = true) (Stat <$> l) = [].
Proof.
  induction l as [|x l IH]; [done|].
  rewrite fmap_cons, (filter_cons _ (Stat x)). simpl. exact IH.
Qed.

(** C2 (precise invalidation).  A type has [N] distinct discovered files,
    all processed by a completed call under the filesystem [env1].  Exactly
    one of them, [f0], is then modified: under [env2] the same files are
    discovered and every fingerprint but that of [f0] is the same.  If the
    modified file validates, re-running with the same cache completes with
    [generated = 1], [cached = N - 1] and [total = N]; the only file read
    and the only document artifact written are those of [f0], and the
    cache changes at [f0] alone. *)
Theorem one_modified_file env1 env2 options w0 c1 w1 f0 d :
  generateDocuments env1 options w0 = (OK c1, w1) →
  discovered env2 options = discovered env1 options →
  NoDup (discovered env1 options) →
  f0 ∈ discovered env1 options →
  (∀ f, f ≠ f0 → mtimeMs_toString env2 f = mtimeMs_toString env1 f) →
  mtimeMs_toString env2 f0 ≠ mtimeMs_toString env1 f0 →
  validate env2 options f0 = OK d →
  ∃ w2 evs,
    generateDocuments env2 options w1 =
      (OK {| cached := length (discovered env1 options) - 1;
             generated := 1;
             total := length (discovered env1 options) |}, w2)
    ∧ cache_items w2 =
        <[f0 := {| hash := mtimeMs_toString env2 f0;
                   entry_type := opt_type options; document := d |}]>
          (cache_items w1)
    ∧ trace w2 = trace w1 ++ evs
    ∧ filter (λ e, is_recompute_event e = true) evs =
        [ReadFile f0;
         WriteFile (output_json env2 options (definition_dir env2 options) f0)
           (JsonDocument d)].
Proof.
  intros Hfirst Hsame Hnd Hf0 Hothers Hmod Hvalid.
  assert (patterns_length (effective_patterns options) ≠ 0) as Hp.
  { intros Hp. by rewrite generateDocuments_no_patterns in Hfirst. }
  assert (∀ f, f ∈ discovered env1 options → cache_hit env1 w1 f = true)
    as Hhits by (intros f; by eapply generateDocuments_establishes_hits).
  destruct (generateDocuments env2 options w1) as [r w2] eqn:Hgd.
  pose proof Hgd as Hgd'. rewrite generateDocuments_eq in Hgd' by done.
  rewrite Hsame in Hgd'.
  apply list_elem_of_split in Hf0 as (pre & post & Hsplit).
  rewrite Hsplit in Hnd, Hhits, Hgd'. pose proof Hnd as Hnd'.
  apply NoDup_app in Hnd as (_ & Hpre & [Hpost _]%NoDup_cons).
  rewrite for_each_app in Hgd'.
  set (wa := emit (Mkdir _) (emit (Glob _ _) w1)) in Hgd'.
  destruct (loop_all_hits env2 options (definition_dir env2 options) pre
              {| n_cached := 0; n_generated := 0; docs := Js.empty |} wa)
    as (la & wb & Hla & Hca & Hga & Hia & Hta).
  { intros f Hf. rewrite (cache_hit_same_mtime env1).
    - apply Hhits, elem_of_app. by left.
    - apply Hothers. intros ->. by apply (Hpre f0); [|left]. }
  rewrite Hla in Hgd'. simpl in Hgd'. unfold bind in Hgd'.
  rewrite process_file_miss, Hvalid in Hgd'.
  2:{ rewrite (cache_hit_ext _ w1) by (by rewrite Hia).
      apply (cache_miss_new_mtime env1); [done|].
      apply Hhits, elem_of_app. right. left. }
  match type of Hgd' with
  | context [for_each _ post ?l ?w] =>
      destruct (loop_all_hits env2 options (definition_dir env2 options)
                  post l w) as (lc & wc & Hlc & Hcc & Hgc & Hic & Htc)
  end.
  { intros f Hf. assert (f ≠ f0) as Hne by (by intros ->).
    rewrite (cache_hit_ext _ w1).
    - rewrite (cache_hit_same_mtime env1) by (by apply Hothers).
      apply Hhits, elem_of_app. right. by right.
    - simpl. rewrite lookup_insert_ne by done. by rewrite Hia. }
  rewrite Hlc in Hgd'. injection Hgd' as <- <-.
  apply generateDocuments_total in Hgd as [Htot _];
    [|by rewrite Hsame, Hsplit].
  simpl in *. rewrite Hsame in Htot.
  rewrite Hsplit, length_app in *. simpl in *.
  eexists _, _. split; [|split; [|split]].
  - rewrite Htot, Hcc, Hca, Hgc, Hga.
    replace (length pre + S (length post) - 1) with (length pre + length post)
      by lia. reflexivity.
  - simpl. by rewrite Hic, Hia.
  - simpl. rewrite Htc, Hta. rewrite <- !app_assoc. reflexivity.
  - rewrite !filter_app, !filter_recompute_stats. reflexivity.
Qed.

Lemma one_modified_file_witness :
  let env1 := Demo.env Demo.mtime0 Demo.read0 Demo.config in
  let env2 := Demo.env Demo.mtime1 Demo.read2 Demo.config in
  let w1 := (generateDocuments env1 Demo.options Demo.world0).2 in
  let d := [("title", JStr "Second edition"); ("draft", JBool false)] in
  ∃ w2 evs,
    generateDocuments env2 Demo.options w1 =
      (OK {| cached := 3 - 1; generated := 1; total := 3 |}, w2)
    ∧ cache_items w2 =
        <[Demo.b_md := {| hash := "1700000005000.25"; entry_type := "blog";
                          document := d |}]> (cache_items w1)
    ∧ trace w2 = trace w1 ++ evs
    ∧ filter (λ e, is_recompute_event e = true) evs =
        [ReadFile Demo.b_md;
         WriteFile "/site/.markdownlayer/generated/blog/b.md.json"
           (JsonDocument d)].
Proof.
  intros env1 env2 w1 d.
  apply (one_modified_file env1 env2 Demo.options Demo.world0
           {| cached := 0; generated := 3; total := 3 |} w1 Demo.b_md d).
  - by vm_compute.
  - reflexivity.
  - apply (bool_decide_unpack _). by vm_compute.
  - apply (bool_decide_unpack _). by vm_compute.
  - intros f Hf. simpl. unfold Demo.mtime1.
    by rewrite bool_decide_eq_false_2.
  - by vm_compute.
  - by vm_compute.
Defined.

(** ** Collection ordering *)

(** A path that starts with a slash, as every absolute POSIX path does, is
    not an array-index key. *)
Lemma absolute_not_array_index (p : string) :
  Js.array_index (String "/" p) = None.
Proof. reflexivity. Qed.



(** ** Format detection *)

(** C5 as the specification words it does not hold: [.ron] is none of the
    five extensions it lists, yet detection succeeds with the markdown
    format, because [mdExtensions] has eight entries. *)
Lemma detection_as_specified_fails :
  ¬ detection_as_specified
      (Demo.env Demo.mtime0 Demo.read0 Demo.config)
      "/site/content/notes/todo.ron".
Proof.
  intros (_ & _ & _ & Hother).
  assert (getFormat (Demo.env Demo.mtime0 Demo.read0 Demo.config)
            "/site/content/notes/todo.ron" detect = OK md) as Hmd
    by (by vm_compute).
  rewrite Hother in Hmd; [done|].
  apply (bool_decide_unpack _). by vm_compute.
Qed.

(** C5 (format detection), amended.  An explicit override is returned
    unchanged.  With ['detect'], the eight extensions of [mdExtensions]
    ([.md], [.markdown], [.mdown], [.mkdn], [.mkd], [.mdwn], [.mkdown],
    [.ron]) resolve to [md], [.mdx] to [mdx], [.mdoc] to [mdoc], and any
    other extension fails with the error that carries the path. *)
Theorem getFormat_resolves env file ext :
  extname env file = ext →
  (∀ f, getFormat env file (explicit f) = OK f)
  ∧ (ext ∈ [".md"; ".markdown"; ".mdown"; ".mkdn"; ".mkd"; ".mdwn";
            ".mkdown"; ".ron"] →
     getFormat env file detect = OK md)
  ∧ (ext = ".mdx" → getFormat env file detect = OK mdx)
  ∧ (ext = ".mdoc" → getFormat env file detect = OK mdoc)
  ∧ (ext ∉ [".md"; ".markdown"; ".mdown"; ".mkdn"; ".mkd"; ".mdwn";
            ".mkdown"; ".ron"; ".mdx"; ".mdoc"] →
     getFormat env file detect = Err (FormatDetectionError file)).
Proof.
  intros Hext. unfold getFormat, includes, mdExtensions. rewrite Hext.
  split; [done|]. split; [|split; [|split]].
  - intros Hin. by rewrite bool_decide_eq_true_2.
  - intros ->. reflexivity.
  - intros ->. reflexivity.
  - intros Hout. rewrite !not_elem_of_cons in Hout.
    destruct Hout as (?&?&?&?&?&?&?&?&?&?&_).
    rewrite bool_decide_eq_false_2.
    + by rewrite !bool_decide_eq_false_2.
    + rewrite !not_elem_of_cons. repeat split; try done. apply not_elem_of_nil.
Qed.

Lemma getFormat_resolves_witness :
  let env := Demo.env Demo.mtime0 Demo.read0 Demo.config in
  getFormat env "/site/content/blog/a.md" (explicit mdx) = OK mdx
  ∧ getFormat env "/site/content/notes/todo.ron" detect = OK md
  ∧ getFormat env "/site/content/blog/page.mdx" detect = OK mdx
  ∧ getFormat env "/site/content/blog/page.mdoc" detect = OK mdoc
  ∧ getFormat env "/site/content/blog/page.txt" detect =
      Err (FormatDetectionError "/site/content/blog/page.txt").
Proof.
  intros env.
  destruct (getFormat_resolves env "/site/content/blog/a.md" ".md" eq_refl)
    as (Hexp & _).
  destruct (getFormat_resolves env "/site/content/notes/todo.ron" ".ron"
              eq_refl) as (_ & Hmd & _).
  destruct (getFormat_resolves env "/site/content/blog/page.mdx" ".mdx"
              eq_refl) as (_ & _ & Hmdx & _).
  destruct (getFormat_resolves env "/site/content/blog/page.mdoc" ".mdoc"
              eq_refl) as (_ & _ & _ & Hmdoc & _).
  destruct (getFormat_resolves env "/site/content/blog/page.txt" ".txt"
              eq_refl) as (_ & _ & _ & _ & Herr).
  split; [|split; [|split; [|split]]].
  - apply Hexp.
  - apply Hmd. apply (bool_decide_unpack _). by vm_compute.
  - by apply Hmdx.
  - by apply Hmdoc.
  - apply Herr. apply (bool_decide_unpack _). by vm_compute.
Defined.

(** ** Promotion of markdown to markdoc *)

(** C9 (markdown-to-markdoc promotion).  When the resolved format is [md]
    and [mdAsMarkdoc] is set, [bundle] is called with format [mdoc] and the
    body that comes back carries [mdoc]; when the option is unset (absent
    or false) the resolved format, whatever it is, is the one used for
    bundling and stored in the body. *)
Theorem body_promotes_markdown env o resolved :
  getFormat env (bo_path o) (default detect (bo_format o)) = OK resolved →
  let used :=
    if bool_decide (resolved = md ∧ mdAsMarkdoc (bo_config o) = Some true)
    then mdoc else resolved in
  let options :=
    {| bp_contents := bo_contents o; bp_entryPath := bo_path o;
       bp_format := used; bp_plugins := bo_config o;
       bp_frontmatter := bo_frontmatter o |} in
  body_bundle_options env o = OK options
  ∧ body env o =
      match bundle_errors (bundle env options) with
      | Some (text :: _) => OK (Issue text)
      | _ => OK (Value {| body_format := used; body_raw := bo_contents o;
                          body_code := bundle_code (bundle env options) |})
      end
  ∧ (resolved = md → mdAsMarkdoc (bo_config o) = Some true → used = mdoc)
  ∧ (mdAsMarkdoc (bo_config o) = None ∨ mdAsMarkdoc (bo_config o) = Some false →
     used = resolved).
Proof.
  intros Hres used options.
  assert (body_resolved_format env o = OK used) as Hused.
  { unfold body_resolved_format, used. rewrite Hres. f_equal.
    destruct resolved, (mdAsMarkdoc (bo_config o)) as [[]|]; simpl;
      try reflexivity;
      first [by rewrite bool_decide_eq_true_2
            |by rewrite bool_decide_eq_false_2 by (by intros [??])]. }
  assert (body_bundle_options env o = OK options) as Hopt
    by (unfold body_bundle_options; by rewrite Hused).
  repeat split.
  - done.
  - unfold body. rewrite Hopt. by destruct (bundle_errors _) as [[|]|].
  - intros -> Hset. unfold used. by rewrite bool_decide_eq_true_2.
  - intros Hunset. unfold used.
    rewrite bool_decide_eq_false_2; [done|]. intros [_ Hset].
    destruct Hunset; congruence.
Qed.

Lemma body_promotes_markdown_witness :
  let env := Demo.env Demo.mtime0 Demo.read0 Demo.config in
  let config :=
    {| configPath := "/site"; configImports := [];
       contentDirPath := "/site/content"; patterns := None;
       output := output Demo.config; definitions := definitions Demo.config;
       mdAsMarkdoc := Some true |} in
  let o := {| bo_path := Demo.a_md; bo_format := None;
              bo_contents := "# Hello"; bo_frontmatter := [];
              bo_config := config |} in
  let options :=
    {| bp_contents := "# Hello"; bp_entryPath := Demo.a_md;
       bp_format := mdoc; bp_plugins := config; bp_frontmatter := [] |} in
  body_bundle_options env o = OK options
  ∧ body env o = OK (Value {| body_format := mdoc; body_raw := "# Hello";
                              body_code := "# Hello" |}).
Proof.
  intros env config o options.
  destruct (body_promotes_markdown env o md) as (Hopt & Hbody & _).
  - by vm_compute.
  - split; [exact Hopt|exact Hbody].
Defined.

(** ** Configuration errors *)

Lemma types_first_error env config td tds gens w e w' :
  generateDocuments env (options_of config td) w = (Err e, w') →
  for_each (run_definition env config) (td :: tds) gens w = (Err e, w').
Proof. intros H. simpl. unfold bind. by rewrite run_definition_eq, H. Qed.

Lemma generateInner_error env config w e w' :
  run_definitions env config w = (Err e, w') →
  generateInner env config w = (Err e, w').
Proof. intros H. unfold generateInner, bind. by rewrite H. Qed.

(** C8 (empty pattern list).  With an empty pattern list (an empty array,
    or an empty string, whose [length] is 0 too), processing a type throws
    [ConfigNoPatternsError] in the world it was called in: nothing has been
    globbed, read or written.  The error leaves [generateInner] as soon as
    the first type is processed, before assets are output or the cache is
    saved, and leaves [generate] after the two directories and the entry
    files. *)
Theorem empty_patterns_abort env config ps :
  patterns config = Some ps → patterns_length ps = 0 →
  (∀ td w, generateDocuments env (options_of config td) w =
             (Err ConfigNoPatternsError, w))
  ∧ (∀ w, Js.entries (definitions config) ≠ [] →
          generateInner env config w = (Err ConfigNoPatternsError, w))
  ∧ (∀ mode providedConfigPath w items uniques,
       getConfig env mode providedConfigPath (store w) =
         (config, (items, uniques)) →
       Js.entries (definitions config) ≠ [] →
       ∃ w', generate env mode providedConfigPath w =
               (Err ConfigNoPatternsError, w')
             ∧ trace w' = trace w ++ [Mkdir (out_assets (output config));
                                      Mkdir (out_generated (output config));
                                      OutputEntryFiles]).
Proof.
  intros Hps Hlen.
  assert (∀ td w, generateDocuments env (options_of config td) w =
                    (Err ConfigNoPatternsError, w)) as Htype.
  { intros td w. apply generateDocuments_no_patterns.
    unfold effective_patterns. simpl. by rewrite Hps. }
  assert (∀ w, Js.entries (definitions config) ≠ [] →
               generateInner env config w = (Err ConfigNoPatternsError, w))
    as Hinner.
  { intros w Hne. apply generateInner_error. unfold run_definitions.
    destruct (Js.entries (definitions config)) as [|td tds]; [done|].
    apply types_first_error, Htype. }
  repeat split; [done..|].
  intros mode providedConfigPath w items uniques Hcfg Hne.
  unfold generate. rewrite Hcfg. unfold bind, perform. simpl.
  rewrite Hinner by done. eexists. split; [reflexivity|].
  simpl. by rewrite <- !app_assoc.
Qed.

Lemma empty_patterns_abort_witness :
  let config := Demo.config_of (Some (ManyPatterns [])) [("blog", Demo.blog)] in
  let env := Demo.env Demo.mtime0 Demo.read0 config in
  generateDocuments env (options_of config ("blog", Demo.blog)) Demo.world0 =
    (Err ConfigNoPatternsError, Demo.world0)
  ∧ generateInner env config Demo.world0 =
      (Err ConfigNoPatternsError, Demo.world0).
Proof.
  intros config env.
  destruct (empty_patterns_abort env config (ManyPatterns []))
    as (Htype & Hinner & _).
  - reflexivity.
  - reflexivity.
  - split; [apply Htype|apply Hinner]. by vm_compute.
Defined.

(** ** Stats over no type at all *)

(** C10 (reduce without an initial value).  When [definitions] is empty,
    [generateInner] outputs the assets, saves the cache and then throws the
    [TypeError] of reducing an empty array, where zero counts would have
    been reported; [generate] has by then made the directories and written
    the entry files.  Hence a pass that completes has at least one declared
    document type. *)
Theorem no_definitions_throw env config :
  (definitions config = [] →
   (∀ w, ∃ w',
       generateInner env config w =
         (Err (TypeError "Reduce of empty array with no initial value"), w')
       ∧ trace w' = trace w ++ [OutputAssets; CacheSave]
       ∧ store w' = cache_items w)
   ∧ (∀ mode providedConfigPath w items uniques,
        getConfig env mode providedConfigPath (store w) =
          (config, (items, uniques)) →
        ∃ w', generate env mode providedConfigPath w =
                (Err (TypeError "Reduce of empty array with no initial value"),
                 w')
              ∧ trace w' = trace w ++ [Mkdir (out_assets (output config));
                                       Mkdir (out_generated (output config));
                                       OutputEntryFiles;
                                       OutputAssets; CacheSave]
              ∧ store w' = items))
  ∧ (∀ w w', generateInner env config w = (OK tt, w') →
             definitions config ≠ []).
Proof.
  assert (definitions config = [] → ∀ w, ∃ w',
       generateInner env config w =
         (Err (TypeError "Reduce of empty array with no initial value"), w')
       ∧ trace w' = trace w ++ [OutputAssets; CacheSave]
       ∧ store w' = cache_items w) as Hinner.
  { intros Hdefs w. unfold generateInner, run_definitions. rewrite Hdefs.
    eexists. split; [reflexivity|]. simpl. by rewrite <- app_assoc. }
  split; [intros Hdefs; split; [by apply Hinner|]|].
  - intros mode providedConfigPath w items uniques Hcfg.
    unfold generate. rewrite Hcfg. unfold bind at 1 2 3 4, perform. simpl.
    match goal with |- context [generateInner env config ?w0] =>
      destruct (Hinner Hdefs w0) as (w' & -> & Ht & Hs) end.
    exists w'. split; [done|]. rewrite Ht, Hs. simpl.
    by rewrite <- !app_assoc.
  - intros w w' Hok Hdefs.
    destruct (Hinner Hdefs w) as (? & Herr & _). congruence.
Qed.

Lemma no_definitions_throw_witness :
  let config := Demo.config_of None [] in
  let env := Demo.env Demo.mtime0 Demo.read0 config in
  ∃ w', generate env production None Demo.world0 =
          (Err (TypeError "Reduce of empty array with no initial value"), w')
        ∧ trace w' = [Mkdir "/site/.markdownlayer/assets";
                      Mkdir "/site/.markdownlayer/generated";
                      OutputEntryFiles; OutputAssets; CacheSave]
        ∧ store w' = ∅.
Proof.
  intros config env.
  destruct (no_definitions_throw env config) as [Hempty _].
  destruct (Hempty eq_refl) as [_ Hgenerate].
  apply (Hgenerate production None Demo.world0 ∅ Js.empty eq_refl).
Defined.

(** ** Validation precedence *)

Lemma get_set {V} (o : Js.object V) k v : Js.get (Js.set o k v) k = Some v.
Proof.
  induction o as [|[k' v'] o IH]; simpl.
  - by rewrite decide_True.
  - destruct (decide (k' = k)) as [->|Hne]; simpl.
    + by rewrite decide_True.
    + by rewrite decide_False.
Qed.

(** What a recomputed file emits, given the data its schema step yields. *)
Lemma process_file_emits env options dir file l w data :
  cache_hit env w file = false →
  validate env options file = OK data →
  ∃ l' w',
    process_file env options dir file l w = (OK l', w')
    ∧ trace w' = trace w ++ [Stat file; ReadFile file;
                             WriteFile (output_json env options dir file)
                               (JsonDocument data)]
    ∧ cache_items w' !! file =
        Some {| hash := mtimeMs_toString env file;
                entry_type := opt_type options; document := data |}
    ∧ Js.get (docs l') file = Some data.
Proof.
  intros Hmiss Hv. rewrite process_file_miss, Hv by done.
  eexists _, _. split; [reflexivity|]. simpl.
  rewrite lookup_insert_eq, get_set, <- !app_assoc. done.
Qed.

(** C4 (validation precedence).  Take a document that is recomputed (its
    file is not a cache hit).  If a schema is resolved for it and the
    metadata block parses successfully, the per-document artifact, the
    cache entry and the entry of [docs] that feeds the collection all hold
    the parsed output of the schema, not the metadata block.  If no schema
    is resolved they hold the metadata block as it was read. *)
Theorem validation_precedence env options dir file l w :
  cache_hit env w file = false →
  let contents := readFile env file in
  let frontmatter := pm_data (matter env contents) in
  let emitted data :=
    ∃ l' w',
      process_file env options dir file l w = (OK l', w')
      ∧ trace w' = trace w ++ [Stat file; ReadFile file;
                               WriteFile (output_json env options dir file)
                                 (JsonDocument data)]
      ∧ cached_document w' file = Some data
      ∧ Js.get (docs l') file = Some data in
  match resolveSchema env
          {| rs_type := opt_type options; rs_schema := opt_schema options;
             rs_path := file; rs_contents := contents;
             rs_frontmatter := frontmatter; rs_config := opt_config options |}
  with
  | Some schema =>
      ∀ parsed, safeParseAsync schema frontmatter = ParseSuccess parsed →
                emitted parsed
  | None => emitted frontmatter
  end.
Proof.
  intros Hmiss contents frontmatter emitted.
  assert (∀ data, validate env options file = OK data → emitted data) as Hemit.
  { intros data Hv.
    destruct (process_file_emits env options dir file l w data Hmiss Hv)
      as (l' & w' & Hstep & Ht & Hc & Hd).
    exists l', w'. unfold cached_document. by rewrite Hc. }
  destruct (resolveSchema env _) as [schema|] eqn:Hrs.
  - intros parsed Hparsed. apply Hemit. unfold validate.
    fold contents. fold frontmatter. by rewrite Hrs, Hparsed.
  - apply Hemit. unfold validate. fold contents. fold frontmatter.
    by rewrite Hrs.
Qed.

(** The transformed data and the metadata block differ here: the schema
    adds the default of [draft]. *)
Lemma validation_precedence_witness :
  let env := Demo.env Demo.mtime0 Demo.read0 Demo.config in
  let l := {| n_cached := 0; n_generated := 0; docs := Js.empty |} in
  let raw := [("title", JStr "Title of /site/content/blog/a.md")] in
  let parsed := [("title", JStr "Title of /site/content/blog/a.md");
                 ("draft", JBool false)] in
  pm_data (matter env (readFile env Demo.a_md)) = raw
  ∧ parsed ≠ raw
  ∧ ∃ l' w',
      process_file env Demo.options "/site/content/blog" Demo.a_md l
        Demo.world0 = (OK l', w')
      ∧ trace w' = [Stat Demo.a_md; ReadFile Demo.a_md;
                    WriteFile "/site/.markdownlayer/generated/blog/a.md.json"
                      (JsonDocument parsed)]
      ∧ cached_document w' Demo.a_md = Some parsed
      ∧ Js.get (docs l') Demo.a_md = Some parsed.
Proof.
  intros env l raw parsed. split; [reflexivity|]. split; [done|].
  apply (validation_precedence env Demo.options "/site/content/blog"
           Demo.a_md l Demo.world0 eq_refl parsed).
  reflexivity.
Defined.

(** ** Fatal validation *)

Lemma validate_fails env options file error issue rest :
  fails_validation env options file error →
  errors error = issue :: rest →
  validate env options file =
  Err (validation_error env options file error issue).
Proof.
  intros (schema & Hrs & Hparse) Herr. unfold validate.
  unfold schema_options in Hrs. by rewrite Hrs, Hparse, Herr.
Qed.

Lemma validate_err_inv env options file e :
  validate env options file = Err e →
  ∃ error,
    fails_validation env options file error
    ∧ match errors error with
      | issue :: _ => e = validation_error env options file error issue
      | [] => e = TypeError "Cannot read properties of undefined (reading 'path')"
      end.
Proof.
  unfold validate, fails_validation, schema_options.
  destruct (resolveSchema env _) as [schema|]; [|done].
  destruct (safeParseAsync schema _) as [data|error] eqn:Hparse; [done|].
  intros He. exists error. split; [by exists schema|].
  destruct (errors error) as [|issue rest]; by injection He as <-.
Qed.

Section AbortFacts.
Variable env : Env.
Variable options : GenerateDocsOptions.
Variable definitionDir : string.

Local Abbreviation loop := (for_each (process_file env options definitionDir)).

(** The loop writes no collection artifact. *)
Lemma loop_writes_no_collection files l w r w' :
  loop files l w = (r, w') →
  ∃ evs, trace w' = trace w ++ evs
         ∧ Forall (λ e, is_collection_write e = false) evs.
Proof.
  revert l w. induction files as [|x files IH]; intros l w; simpl.
  - intros [= <- <-]. exists []. by rewrite app_nil_r.
  - unfold bind.
    destruct (process_file env options definitionDir x l w)
      as [[l1|e] w1] eqn:Hx.
    + intros (evs & Ht & Hevs)%IH.
      apply process_file_ok_inv in Hx as (d & _ & _ & _ & _ & _ & _ & Hcase).
      destruct Hcase as [(_ & _ & _ & _ & Ht1)|(_ & _ & _ & _ & _ & Ht1)];
        rewrite Ht1, <- app_assoc in Ht; eexists; (split; [exact Ht|]);
        apply Forall_app; split; try done; by repeat constructor.
    + intros [= <- <-]. apply process_file_err_inv in Hx as (_ & _ & ->).
      exists [Stat x; ReadFile x]. simpl. rewrite <- app_assoc.
      split; [done|]. by repeat constructor.
Qed.

(** A changed file that does not validate stops the loop: it throws the
    error of such a file, the first it meets. *)
Lemma loop_fails files l w f e0 :
  f ∈ files → cache_hit env w f = false → validate env options f = Err e0 →
  ∃ f' e w',
    f' ∈ files ∧ validate env options f' = Err e
    ∧ loop files l w = (Err e, w').
Proof.
  revert l w. induction files as [|x files IH]; intros l w Hf Hmiss Hv.
  - by apply elem_of_nil in Hf.
  - simpl. unfold bind.
    destruct (process_file env options definitionDir x l w)
      as [[l1|e] w1] eqn:Hx.
    + assert (f ≠ x) as Hne.
      { intros ->. rewrite process_file_miss, Hv in Hx by done. done. }
      apply elem_of_cons in Hf as [?|Hf]; [done|].
      destruct (IH l1 w1 Hf) as (f' & e & w' & Hf' & Hv' & Hloop); [|done|].
      * rewrite <- Hmiss. apply cache_hit_ext.
        apply process_file_ok_inv in Hx as (d & _ & _ & _ & Hi & _).
        by apply Hi.
      * exists f', e, w'. split; [by right|done].
    + exists x, e, w1. split; [left|].
      by apply process_file_err_inv in Hx as (_ & ? & _).
Qed.

End AbortFacts.

Lemma types_frame_store env config tds gens w r w' :
  for_each (run_definition env config) tds gens w = (r, w') →
  store w' = store w.
Proof.
  revert gens w. induction tds as [|td tds IH]; intros gens w; simpl.
  - by intros [= <- <-].
  - unfold bind. rewrite run_definition_eq.
    destruct (generateDocuments _ _ _) as [[c|e] w1] eqn:Hgd.
    + intros ->%IH. by apply generateDocuments_frame in Hgd as (? & _).
    + intros [= <- <-]. by apply generateDocuments_frame in Hgd as (? & _).
Qed.

(** C3 (fatal validation halts output).  A type has patterns and its file
    set contains a document that is read in this pass (it is not a cache
    hit) and fails schema validation; a failed parse lists at least one
    issue, as zod's always do.  Then processing the type throws
    [InvalidDocumentFrontmatterError] for such a document: the error
    carries the zod error with its first issue, the file in its location,
    as line what [getYamlErrorLine] computes from the raw metadata text and
    the first path element of that issue, and column 0.  Nothing written
    by the call is a collection artifact, so no [index.json] of the type.
    A pass that reaches the type in this world throws the same error:
    [generateInner] stops there, with the cache not saved. *)
Theorem fatal_validation_halts_output env options w f error0 :
  patterns_length (effective_patterns options) ≠ 0 →
  f ∈ discovered env options →
  cache_hit env w f = false →
  fails_validation env options f error0 →
  (∀ f' error, f' ∈ discovered env options →
               fails_validation env options f' error → errors error ≠ []) →
  ∃ f' error issue rest w' evs,
    let e :=
      InvalidDocumentFrontmatterError
        (opt_type options)
        (relative env (configPath (opt_config options)) f')
        error
        {| loc_file := f';
           loc_line :=
             getYamlErrorLine env (pm_matter (matter env (readFile env f')))
               (String_of (head (issue_path issue)));
           loc_column := 0 |} in
    f' ∈ discovered env options
    ∧ fails_validation env options f' error
    ∧ errors error = issue :: rest
    ∧ generateDocuments env options w = (Err e, w')
    ∧ trace w' = trace w ++ evs
    ∧ Forall (λ ev, is_collection_write ev = false) evs
    ∧ ∀ config td pre post gens w0,
        options = options_of config td →
        Js.entries (definitions config) = pre ++ td :: post →
        for_each (run_definition env config) pre Js.empty w0 = (OK gens, w) →
        generateInner env config w0 = (Err e, w') ∧ store w' = store w0.
Proof.
  intros Hp Hf Hmiss Hfails Hzod.
  assert (∀ config td pre post gens w0 e w',
            generateDocuments env options w = (Err e, w') →
            options = options_of config td →
            Js.entries (definitions config) = pre ++ td :: post →
            for_each (run_definition env config) pre Js.empty w0 = (OK gens, w) →
            generateInner env config w0 = (Err e, w') ∧ store w' = store w0)
    as Hpass.
  { intros config td pre post gens w0 e w' Hgd -> Hentries Hpre. split.
    - unfold generateInner, bind, run_definitions.
      rewrite Hentries, for_each_app, Hpre.
      by rewrite (types_first_error _ _ _ _ _ _ _ _ Hgd).
    - apply generateDocuments_frame in Hgd as (-> & _).
      by apply types_frame_store in Hpre. }
  assert (∃ e0, validate env options f = Err e0) as [e0 Hv0].
  { destruct (errors error0) as [|issue rest] eqn:Herr.
    - by destruct (Hzod f error0).
    - eexists. by eapply validate_fails. }
  destruct (loop_fails env options (definition_dir env options)
              (discovered env options)
              {| n_cached := 0; n_generated := 0; docs := Js.empty |}
              (emit (Mkdir (join env [out_generated (output (opt_config options));
                                      opt_type options]))
                 (emit (Glob (effective_patterns options)
                          (definition_dir env options)) w))
              f e0 Hf Hmiss Hv0)
    as (f' & e & w' & Hf' & Hv' & Hloop).
  apply validate_err_inv in Hv' as (error & Hfails' & He).
  destruct (errors error) as [|issue rest] eqn:Herr;
    [by destruct (Hzod f' error)|].
  subst e.
  assert (generateDocuments env options w =
            (Err (validation_error env options f' error issue), w')) as Hgd
    by (by rewrite generateDocuments_eq, Hloop).
  apply loop_writes_no_collection in Hloop as (evs & Ht & Hevs).
  simpl in Ht. rewrite <- !app_assoc in Ht.
  eexists f', error, issue, rest, w', _.
  split; [done|]. split; [done|]. split; [done|]. split; [exact Hgd|].
  split; [exact Ht|]. split.
  - by repeat constructor.
  - intros config td pre post gens w0. by apply Hpass.
Qed.

Lemma fatal_validation_halts_output_witness :
  let env := Demo.env Demo.mtime1 Demo.read1 Demo.config in
  let w := (generateDocuments (Demo.env Demo.mtime0 Demo.read0 Demo.config)
              Demo.options Demo.world0).2 in
  ∃ f' error issue rest w' evs,
    let e :=
      InvalidDocumentFrontmatterError
        "blog" (relative env "/site" f') error
        {| loc_file := f';
           loc_line :=
             getYamlErrorLine env (pm_matter (matter env (readFile env f')))
               (String_of (head (issue_path issue)));
           loc_column := 0 |} in
    f' ∈ [Demo.a_md; Demo.b_md; Demo.c_md]
    ∧ fails_validation env Demo.options f' error
    ∧ errors error = issue :: rest
    ∧ generateDocuments env Demo.options w = (Err e, w')
    ∧ trace w' = trace w ++ evs
    ∧ Forall (λ ev, is_collection_write ev = false) evs
    ∧ ∀ config td pre post gens w0,
        Demo.options = options_of config td →
        Js.entries (definitions config) = pre ++ td :: post →
        for_each (run_definition env config) pre Js.empty w0 = (OK gens, w) →
        generateInner env config w0 = (Err e, w') ∧ store w' = store w0.
Proof.
  intros env w.
  apply (fatal_validation_halts_output env Demo.options w Demo.b_md
           {| errors := [{| issue_path := [PKey "title"];
                            issue_message := "Required" |}] |}).
  - by vm_compute.
  - apply (bool_decide_unpack _). by vm_compute.
  - by vm_compute.
  - exists Demo.schema. by vm_compute.
  - intros f' error _ (schema & [= <-] & Hparse) Hnil.
    simpl in Hparse. destruct (bool_decide (Demo.read1 f' = "")).
    + injection Hparse as <-. discriminate Hnil.
    + rewrite bool_decide_eq_true_2 in Hparse by done. discriminate Hparse.
Defined.

(** ** The watch handler *)

Section UniquesFacts.
Context {V : Type} `{!EqDecision V}.
Implicit Types (o : Js.object V).

Lemma insert_index_elem_2 n (kv : string * V) l x :
  x = (n, kv) ∨ x ∈ l → x ∈ Js.insert_index n kv l.
Proof.
  induction l as [|[m kv'] l IH]; simpl.
  - intros [->|?%elem_of_nil]; [left|done].
  - destruct (n <? m)%N.
    + intros [->|?]; [left|by right].
    + intros [->|[->|?]%elem_of_cons]; [right|left|right]; apply IH; auto.
Qed.

Lemma elem_entries o x : x ∈ o → x ∈ Js.entries o.
Proof.
  intros Hx. unfold Js.entries. apply elem_of_app.
  destruct (Js.array_index x.1) as [n|] eqn:Hn.
  - left. apply list_elem_of_fmap. exists (n, x). split; [done|].
    unfold Js.index_props. induction o as [|kv o IH]; simpl.
    + by apply elem_of_nil in Hx.
    + apply elem_of_cons in Hx as [<-|Hx].
      * rewrite Hn. apply insert_index_elem_2. by left.
      * destruct (Js.array_index kv.1); [apply insert_index_elem_2; right|];
          by apply IH.
  - right. unfold Js.string_props. by apply list_elem_of_filter.
Qed.



(** Deleting one key after the other leaves the properties whose key was
    not among them. *)
Lemma foldl_del (P : string * V → Prop) `{!∀ x, Decision (P x)}
    (l : list (string * V)) o :
  foldl (λ u kv, if bool_decide (P kv) then Js.del u kv.1 else u) o l =
  filter (λ kv, kv.1 ∉ (filter P l).*1) o.
Proof.
  revert o. induction l as [|kv l IH]; intros o; simpl.
  - induction o as [|x o IHo]; [done|].
    rewrite filter_cons_True by apply not_elem_of_nil. by f_equal.
  - rewrite IH, filter_cons. destruct (decide (P kv)) as [Hkv|Hkv].
    + rewrite bool_decide_eq_true_2 by done. unfold Js.del.
      rewrite list_filter_filter. apply list_filter_iff. intros x.
      rewrite fmap_cons, not_elem_of_cons. simpl. tauto.
    + by rewrite bool_decide_eq_false_2.
Qed.

End UniquesFacts.





(** * Further properties of the modelled code *)

(** ** The format resolver and the body schema, continued *)

Lemma getFormat_err_iff env file format e :
  (getFormat env file format = Err e) ↔
  format = detect
  ∧ (extname env file ∉ detected_extensions)
  ∧ e = FormatDetectionError file.
Proof.
  unfold getFormat, includes, detected_extensions.
  destruct format as [|f]; [|split; [done|by intros (? & _)]].
  rewrite not_elem_of_app.
  destruct (decide (extname env file ∈ mdExtensions)) as [Hmd|Hmd].
  { rewrite bool_decide_eq_true_2 by done. split; [done|tauto]. }
  rewrite bool_decide_eq_false_2 by done.
  destruct (decide (extname env file = ".mdx")) as [Hx|Hx].
  { rewrite bool_decide_eq_true_2 by done. split; [done|].
    intros (_ & [_ Hout] & _). destruct Hout. rewrite Hx. by left. }
  rewrite bool_decide_eq_false_2 by done.
  destruct (decide (extname env file = ".mdoc")) as [Hc|Hc].
  { rewrite bool_decide_eq_true_2 by done. split; [done|].
    intros (_ & [_ Hout] & _). destruct Hout. rewrite Hc. right. by left. }
  rewrite bool_decide_eq_false_2 by done. split.
  - intros [= <-]. repeat split; try done.
    rewrite !not_elem_of_cons. repeat split; try done. apply not_elem_of_nil.
  - by intros (_ & _ & ->).
Qed.

(** X1.  [getFormat] fails in one way only: under ['detect'], for an
    extension that is none of the ten it knows, with the error that
    carries the path it was given.  An explicit format never fails. *)
Theorem getFormat_error env file format e :
  (getFormat env file format = Err e) ↔
  format = detect
  ∧ (extname env file ∉ detected_extensions)
  ∧ e = FormatDetectionError file.
Proof. apply getFormat_err_iff. Qed.

Lemma body_resolved_format_error env o e :
  (body_resolved_format env o = Err e) ↔
  getFormat env (bo_path o) (default detect (bo_format o)) = Err e.
Proof.
  unfold body_resolved_format.
  destruct (getFormat _ _ _) as [f|e']; [done|]. split; by intros [= <-].
Qed.

(** X2.  The body transform throws only when format detection does: the
    format is left to detection (absent or ['detect']) and the extension
    of the path is unknown.  The bundler's errors never make it throw, and
    with an explicit format it cannot throw at all. *)
Theorem body_throws_only_detection env o e :
  (body env o = Err e) ↔
  default detect (bo_format o) = detect
  ∧ (extname env (bo_path o) ∉ detected_extensions)
  ∧ e = FormatDetectionError (bo_path o).
Proof.
  rewrite <- getFormat_err_iff. unfold body, body_bundle_options.
  destruct (body_resolved_format env o) as [f|e'] eqn:Hf.
  - split; [by destruct (bundle_errors _) as [[|]|]|].
    intros He%body_resolved_format_error. congruence.
  - apply body_resolved_format_error in Hf. split; intros H; congruence.
Qed.

(** X3.  What the transform returns is decided by the bundler's error
    list: a first error becomes the issue the transform adds, with its
    text, and no body is produced; an absent or an empty list gives the
    body, whose raw text is the contents handed in and whose code is the
    bundler's. *)
Theorem body_outcome env o options :
  body_bundle_options env o = OK options →
  (∀ text, body env o = OK (Issue text) ↔
           ∃ rest, bundle_errors (bundle env options) = Some (text :: rest))
  ∧ (∀ b, body env o = OK (Value b) ↔
          (bundle_errors (bundle env options) = None
           ∨ bundle_errors (bundle env options) = Some [])
          ∧ b = {| body_format := bp_format options;
                   body_raw := bo_contents o;
                   body_code := bundle_code (bundle env options) |}).
Proof.
  intros Hopt. unfold body. rewrite Hopt.
  destruct (bundle_errors (bundle env options)) as [[|text0 rest0]|]; split.
  - intros text. split; [done|]. by intros [rest ?].
  - intros b. split; [intros [= <-]; split; [by right|done]|].
    by intros [_ ->].
  - intros text. split; [intros [= <-]; by exists rest0|].
    by intros [rest [= <- _]].
  - intros b. split; [done|]. by intros [[?|?] _].
  - intros text. split; [done|]. by intros [rest ?].
  - intros b. split; [intros [= <-]; split; [by left|done]|].
    by intros [_ ->].
Qed.

Lemma body_outcome_witness :
  let env := Demo.env Demo.mtime0 Demo.read0 Demo.config in
  let o := {| bo_path := Demo.a_md; bo_format := Some (explicit mdx);
              bo_contents := "# Hello"; bo_frontmatter := [];
              bo_config := Demo.config |} in
  body env o = OK (Value {| body_format := mdx; body_raw := "# Hello";
                            body_code := "# Hello" |}).
Proof.
  intros env o.
  destruct (body_outcome env o
              {| bp_contents := "# Hello"; bp_entryPath := Demo.a_md;
                 bp_format := mdx; bp_plugins := Demo.config;
                 bp_frontmatter := [] |} eq_refl) as [_ Hvalue].
  apply Hvalue. split; [by left|reflexivity].
Defined.

(** X4.  With [mdAsMarkdoc] set, the plain-markdown format never reaches
    the bundler nor a document body, whether it was detected or asked for
    explicitly. *)
Theorem body_never_markdown_when_promoted env o :
  mdAsMarkdoc (bo_config o) = Some true →
  (∀ options, body_bundle_options env o = OK options → bp_format options ≠ md)
  ∧ (∀ b, body env o = OK (Value b) → body_format b ≠ md).
Proof.
  intros Hset.
  assert (∀ options, body_bundle_options env o = OK options →
                     bp_format options ≠ md) as Hopt.
  { intros options. unfold body_bundle_options, body_resolved_format.
    rewrite Hset. simpl.
    destruct (getFormat _ _ _) as [[]|]; simpl; by intros [= <-]. }
  split; [done|]. intros b. unfold body.
  destruct (body_bundle_options env o) as [options|] eqn:Hb; [|done].
  specialize (Hopt options eq_refl).
  destruct (bundle_errors _) as [[|]|]; by intros [= <-].
Qed.

Lemma body_never_markdown_when_promoted_witness :
  let env := Demo.env Demo.mtime0 Demo.read0 Demo.config in
  let config :=
    {| configPath := "/site"; configImports := [];
       contentDirPath := "/site/content"; patterns := None;
       output := output Demo.config; definitions := definitions Demo.config;
       mdAsMarkdoc := Some true |} in
  let o := {| bo_path := Demo.a_md; bo_format := Some (explicit md);
              bo_contents := "# Hello"; bo_frontmatter := [];
              bo_config := config |} in
  body env o = OK (Value {| body_format := mdoc; body_raw := "# Hello";
                            body_code := "# Hello" |})
  ∧ mdoc ≠ md.
Proof.
  intros env config o. split; [reflexivity|].
  destruct (body_never_markdown_when_promoted env o eq_refl) as [_ Hbody].
  apply (Hbody {| body_format := mdoc; body_raw := "# Hello";
                  body_code := "# Hello" |}).
  reflexivity.
Defined.

(** ** The document type processor, continued *)

Section MoreLoopFacts.
Variable env : Env.
Variable options : GenerateDocsOptions.
Variable definitionDir : string.

Local Abbreviation loop := (for_each (process_file env options definitionDir)).

Lemma loop_events files l w r w' :
  loop files l w = (r, w') →
  ∃ evs, trace w' = trace w ++ evs ∧ Forall (λ e, is_fs_event e = true) evs.
Proof.
  revert l w. induction files as [|x files IH]; intros l w; simpl.
  - intros [= <- <-]. exists []. by rewrite app_nil_r.
  - unfold bind.
    destruct (process_file env options definitionDir x l w)
      as [[l1|e] w1] eqn:Hx.
    + intros (evs & Ht & Hevs)%IH.
      apply process_file_ok_inv in Hx as (d & _ & _ & _ & _ & _ & _ & Hcase).
      destruct Hcase as [(_ & _ & _ & _ & Ht1)|(_ & _ & _ & _ & _ & Ht1)];
        rewrite Ht1, <- app_assoc in Ht; eexists; (split; [exact Ht|]);
        apply Forall_app; split; try done; by repeat constructor.
    + intros [= <- <-]. apply process_file_err_inv in Hx as (_ & _ & ->).
      exists [Stat x; ReadFile x]. simpl. rewrite <- app_assoc.
      split; [done|]. by repeat constructor.
Qed.

Lemma loop_keeps_entries files l w r w' f :
  loop files l w = (r, w') →
  is_Some (cache_items w !! f) → is_Some (cache_items w' !! f).
Proof.
  revert l w. induction files as [|x files IH]; intros l w; simpl.
  - by intros [= <- <-].
  - unfold bind.
    destruct (process_file env options definitionDir x l w)
      as [[l1|e] w1] eqn:Hx.
    + intros Hrest Hf. apply (IH _ _ Hrest).
      apply process_file_ok_inv in Hx as (d & _ & _ & _ & _ & _ & _ & Hcase).
      destruct Hcase as [(_ & _ & _ & -> & _)|(_ & _ & _ & _ & -> & _)];
        [done|].
      destruct (decide (f = x)) as [->|Hne].
      * rewrite lookup_insert_eq. by eexists.
      * by rewrite lookup_insert_ne.
    + intros [= <- <-]. by apply process_file_err_inv in Hx as (_ & _ & ->).
Qed.

Lemma set_length {V} (o : Js.object V) k v :
  length (Js.set o k v) ≤ S (length o).
Proof.
  induction o as [|[k' v'] o IH]; simpl; [lia|].
  destruct (decide (k' = k)); simpl; lia.
Qed.

Lemma loop_docs_length files l w l' w' :
  loop files l w = (OK l', w') →
  length (docs l') ≤ length (docs l) + length files.
Proof.
  revert l w. induction files as [|x files IH]; intros l w; simpl.
  - intros [= <- <-]. lia.
  - unfold bind.
    destruct (process_file env options definitionDir x l w)
      as [[l1|e] w1] eqn:Hx; [|done].
    intros Hrest%IH.
    apply process_file_ok_inv in Hx as (d & Hd & _).
    pose proof (set_length (docs l) x d). rewrite Hd in Hrest. lia.
Qed.

(** The loop completes when every file is a hit or passes its schema
    step. *)
Lemma loop_completes files l w :
  (∀ f, f ∈ files → processable env options w f) →
  ∃ l' w', loop files l w = (OK l', w').
Proof.
  revert l w. induction files as [|x files IH]; intros l w Hall; simpl.
  - by exists l, w.
  - unfold bind.
    destruct (process_file env options definitionDir x l w)
      as [[l1|e] w1] eqn:Hx.
    + apply IH. intros f Hf.
      destruct (Hall f) as [Hhit|Hvalid]; [by right| |by right].
      left. apply (loop_keeps_hits env options definitionDir [x] l w (OK l1) w1);
        [|done].
      simpl. unfold bind. by rewrite Hx.
    + apply process_file_err_inv in Hx as (Hmiss & Hv & _).
      destruct (Hall x) as [Hhit|[d Hd]]; [by left|congruence..].
Qed.

(** The artifact of a recomputed file is among the events of a completed
    loop, and its data is what the cache holds for the file afterwards. *)
Lemma loop_recomputed files l w l' w' f d :
  NoDup files →
  loop files l w = (OK l', w') →
  f ∈ files → cache_hit env w f = false → validate env options f = OK d →
  WriteFile (output_json env options definitionDir f) (JsonDocument d)
    ∈ trace w'
  ∧ cached_document w' f = Some d.
Proof.
  revert l w. induction files as [|x files IH]; intros l w Hnd; simpl.
  - by intros _ ?%elem_of_nil.
  - unfold bind.
    destruct (process_file env options definitionDir x l w)
      as [[l1|e] w1] eqn:Hx; [|done].
    apply NoDup_cons in Hnd as [Hx_notin Hnd].
    intros Hrest [->|Hf]%elem_of_cons Hmiss Hv.
    + rewrite process_file_miss, Hv in Hx by done. injection Hx as <- <-.
      destruct (loop_events _ _ _ _ _ Hrest) as (evs & Ht & _).
      destruct (loop_frame _ _ _ _ _ _ _ _ Hrest) as (_ & _ & Hi).
      split.
      * rewrite Ht. simpl. apply elem_of_app. left.
        apply elem_of_app. right. by left.
      * unfold cached_document. rewrite Hi by done. simpl.
        by rewrite lookup_insert_eq.
    + apply (IH _ _ Hnd Hrest Hf); [|done].
      rewrite <- Hmiss. apply cache_hit_ext.
      apply process_file_ok_inv in Hx as (d' & _ & _ & _ & Hi & _).
      apply Hi. by intros ->.
Qed.

End MoreLoopFacts.

Section MoreTypeFacts.
Variable env : Env.
Variable options : GenerateDocsOptions.

Local Abbreviation dir := (definition_dir env options).
Local Abbreviation files := (discovered env options).
Local Abbreviation generated_dir :=
  (out_generated (output (opt_config options))).
Local Abbreviation index_json :=
  (join env [generated_dir; opt_type options; "index.json"]).
Local Abbreviation index_mjs :=
  (join env [generated_dir; opt_type options; "index.mjs"]).

Lemma generateDocuments_events w r w' :
  generateDocuments env options w = (r, w') →
  ∃ evs, trace w' = trace w ++ evs ∧ Forall (λ e, is_fs_event e = true) evs.
Proof.
  destruct (decide (patterns_length (effective_patterns options) = 0)) as [H|H].
  - rewrite generateDocuments_no_patterns by done. intros [= <- <-].
    exists []. by rewrite app_nil_r.
  - rewrite generateDocuments_eq by done.
    destruct (for_each _ _ _ _) as [[l|e] w1] eqn:Hl; intros [= <- <-];
      apply loop_events in Hl as (evs & Ht & Hevs); simpl in *;
      rewrite Ht, <- !app_assoc; eexists; (split; [reflexivity|]);
      repeat (apply Forall_cons; split; [done|]);
      try (apply Forall_app; split; [done|]); by repeat constructor.
Qed.

Lemma generateDocuments_keeps_entries w r w' f :
  generateDocuments env options w = (r, w') →
  is_Some (cache_items w !! f) → is_Some (cache_items w' !! f).
Proof.
  destruct (decide (patterns_length (effective_patterns options) = 0)) as [H|H].
  - rewrite generateDocuments_no_patterns by done. by intros [= <- <-].
  - rewrite generateDocuments_eq by done.
    destruct (for_each _ _ _ _) as [[l|e] w1] eqn:Hl; intros [= <- <-] Hf;
      by apply (loop_keeps_entries _ _ _ _ _ _ _ _ f) in Hl.
Qed.

(** X5.  Whether it completes or throws, processing a type only acts on
    the filesystem (it globs, makes its directory, stats, reads, writes):
    it logs nothing and does not save the cache.  It leaves the persisted
    store and [uniques] alone, never removes a cache entry, and does not
    touch the entry of a file it has not discovered, so the entry of a
    deleted file stays in the cache. *)
Theorem generateDocuments_effects w r w' :
  generateDocuments env options w = (r, w') →
  (∃ evs, trace w' = trace w ++ evs ∧ Forall (λ e, is_fs_event e = true) evs)
  ∧ store w' = store w
  ∧ cache_uniques w' = cache_uniques w
  ∧ (∀ f, is_Some (cache_items w !! f) → is_Some (cache_items w' !! f))
  ∧ (∀ f, f ∉ files → cache_items w' !! f = cache_items w !! f).
Proof.
  intros Hgd. split; [by eapply generateDocuments_events|].
  destruct (generateDocuments_frame _ _ _ _ _ Hgd) as (Hs & Hu & Hi).
  repeat split; try done.
  intros f. by eapply generateDocuments_keeps_entries.
Qed.

(** X6.  In a completed call every discovered file is counted once, as
    cached or as generated, even if the list of files repeats a path;
    [total] counts the distinct paths, so it is at most that sum and equal
    to it when the files are distinct. *)
Theorem every_file_counted_once w c w' :
  generateDocuments env options w = (OK c, w') →
  cached c + generated c = length files
  ∧ total c ≤ length files
  ∧ (NoDup files → total c = length files).
Proof.
  intros Hgd. split; [|split].
  - destruct (decide (patterns_length (effective_patterns options) = 0))
      as [H|H]; [by rewrite generateDocuments_no_patterns in Hgd|].
    rewrite generateDocuments_eq in Hgd by done.
    destruct (for_each _ _ _ _) as [[l|e] w1] eqn:Hl; [|done].
    injection Hgd as <- _. simpl. by apply loop_counts in Hl.
  - destruct (decide (patterns_length (effective_patterns options) = 0))
      as [H|H]; [by rewrite generateDocuments_no_patterns in Hgd|].
    rewrite generateDocuments_eq in Hgd by done.
    destruct (for_each _ _ _ _) as [[l|e] w1] eqn:Hl; [|done].
    injection Hgd as <- _. simpl. rewrite keys_length.
    by apply loop_docs_length in Hl.
  - intros Hnd. by destruct (generateDocuments_total _ _ _ _ _ Hnd Hgd).
Qed.

(** X7.  A type without files still completes, with all counts 0: its
    directory is made, [index.json] holds the empty array, and the import
    module has no import and exports an array literal that holds a lone
    comma. *)
Theorem empty_type_artifacts w :
  patterns_length (effective_patterns options) ≠ 0 →
  files = [] →
  ∃ w',
    generateDocuments env options w =
      (OK {| cached := 0; generated := 0; total := 0 |}, w')
    ∧ cache_items w' = cache_items w
    ∧ trace w' =
        trace w ++
        [Glob (effective_patterns options) dir;
         Mkdir (join env [generated_dir; opt_type options]);
         WriteFile index_json (JsonCollection []);
         WriteFile index_mjs
           (SourceText
              (String.concat newline
                 [autogeneratedNote env; ""; "";
                  "export const " +:+ getDataVariableName env (opt_type options)
                    +:+ " = [";
                  "  ,"; "];"; ""]))].
Proof.
  intros Hp Hfiles. rewrite generateDocuments_eq by done. rewrite Hfiles.
  simpl. eexists. split; [reflexivity|]. split; [done|].
  simpl. by rewrite <- !app_assoc.
Qed.

(** X8.  Files whose fingerprint matches their cache entry are neither
    read nor validated: when all the (distinct, absolute) files of a type
    are cache hits, the call only stats them and writes the two aggregate
    artifacts; the collection holds the cached documents as they are,
    whatever the schema would make of the files now. *)
Theorem unchanged_files_not_read w :
  patterns_length (effective_patterns options) ≠ 0 →
  NoDup files →
  Forall (λ f, Js.array_index f = None) files →
  (∀ f, f ∈ files → cache_hit env w f = true) →
  ∃ ds w',
    Forall2 (λ f d, cached_document w f = Some d) files ds
    ∧ generateDocuments env options w =
        (OK {| cached := length files; generated := 0;
               total := length files |}, w')
    ∧ cache_items w' = cache_items w
    ∧ trace w' =
        trace w ++
        [Glob (effective_patterns options) dir;
         Mkdir (join env [generated_dir; opt_type options])]
        ++ (Stat <$> files)
        ++ [WriteFile index_json (JsonCollection ds);
            WriteFile index_mjs
              (SourceText (import_module env (opt_type options) dir files))].
Proof.
  intros Hp Hnd Hidx Hall.
  destruct (generateDocuments_all_hits env options w Hp Hnd Hall)
    as (w' & Hgd & Hi).
  pose proof Hgd as Hgd'. rewrite generateDocuments_eq in Hgd' by done.
  match type of Hgd' with
  | context [for_each _ _ ?l0 ?w0] =>
      destruct (loop_all_hits env options dir files l0 w0)
        as (l & w1 & Hl & _ & _ & Hi1 & Ht1); [done|]
  end.
  rewrite Hl in Hgd'. apply (f_equal snd) in Hgd'. simpl in Hgd'. subst w'.
  apply loop_docs in Hl as (ds & Hdocs & Hds);
    [|done|by intros ? _ ?%elem_of_nil].
  simpl in Hdocs. pose proof (Forall2_length _ _ _ Hds) as Hlen.
  assert ((docs l).*1 = files) as Hkeys by (rewrite Hdocs; apply fst_zip; lia).
  assert ((docs l).*2 = ds) as Hvals by (rewrite Hdocs; apply snd_zip; lia).
  eexists ds, _. split; [|split; [exact Hgd|split; [done|]]].
  - eapply Forall2_impl; [exact Hds|]. intros f d. unfold cached_document.
    by rewrite Hi1.
  - simpl. rewrite keys_creation_order, values_creation_order
      by (by rewrite Hkeys).
    rewrite Hkeys, Hvals, Ht1. simpl. by rewrite <- !app_assoc.
Qed.

End MoreTypeFacts.

Lemma generateDocuments_effects_witness :
  let env := Demo.env Demo.mtime1 Demo.read1 Demo.config in
  let w := Demo.world1 in
  let w' := (generateDocuments env Demo.options w).2 in
  (∃ evs, trace w' = trace w ++ evs ∧ Forall (λ e, is_fs_event e = true) evs)
  ∧ store w' = store w
  ∧ cache_uniques w' = cache_uniques w
  ∧ (∀ f, is_Some (cache_items w !! f) → is_Some (cache_items w' !! f))
  ∧ (∀ f, f ∉ discovered env Demo.options →
          cache_items w' !! f = cache_items w !! f).
Proof.
  intros env w w'.
  apply (generateDocuments_effects env Demo.options w
           (generateDocuments env Demo.options w).1 w').
  by destruct (generateDocuments env Demo.options w).
Defined.

Lemma every_file_counted_once_witness :
  let env := Demo.env Demo.mtime1 Demo.read2 Demo.config in
  let c := {| cached := 2; generated := 1; total := 3 |} in
  cached c + generated c = 3 ∧ total c ≤ 3
  ∧ (NoDup (discovered env Demo.options) → total c = 3).
Proof.
  intros env c.
  apply (every_file_counted_once env Demo.options Demo.world1 c
           (generateDocuments env Demo.options Demo.world1).2).
  by vm_compute.
Defined.

Lemma empty_type_artifacts_witness :
  let env := Demo.env Demo.mtime0 Demo.read0 Demo.config in
  let options := {| opt_schema := None; opt_format := None;
                    opt_type := "notes"; opt_config := Demo.config |} in
  ∃ w',
    generateDocuments env options Demo.world0 =
      (OK {| cached := 0; generated := 0; total := 0 |}, w')
    ∧ cache_items w' = ∅
    ∧ trace w' =
        [Glob default_patterns "/site/content/notes";
         Mkdir "/site/.markdownlayer/generated/notes";
         WriteFile "/site/.markdownlayer/generated/notes/index.json"
           (JsonCollection []);
         WriteFile "/site/.markdownlayer/generated/notes/index.mjs"
           (SourceText
              (String.concat newline
                 ["// NOTE This file is auto-generated."; ""; "";
                  "export const notess = ["; "  ,"; "];"; ""]))].
Proof.
  intros env options.
  apply (empty_type_artifacts env options Demo.world0); by vm_compute.
Defined.

Lemma unchanged_files_not_read_witness :
  let env := Demo.env Demo.mtime0 Demo.read1 Demo.config in
  ∃ ds w',
    Forall2 (λ f d, cached_document Demo.world1 f = Some d)
      [Demo.a_md; Demo.b_md; Demo.c_md] ds
    ∧ generateDocuments env Demo.options Demo.world1 =
        (OK {| cached := 3; generated := 0; total := 3 |}, w')
    ∧ cache_items w' = cache_items Demo.world1
    ∧ trace w' =
        [Glob default_patterns "/site/content/blog";
         Mkdir "/site/.markdownlayer/generated/blog"]
        ++ (Stat <$> [Demo.a_md; Demo.b_md; Demo.c_md])
        ++ [WriteFile "/site/.markdownlayer/generated/blog/index.json"
              (JsonCollection ds);
            WriteFile "/site/.markdownlayer/generated/blog/index.mjs"
              (SourceText
                 (import_module env "blog" "/site/content/blog"
                    [Demo.a_md; Demo.b_md; Demo.c_md]))].
Proof.
  intros env.
  apply (unchanged_files_not_read env Demo.options Demo.world1).
  - by vm_compute.
  - apply (bool_decide_unpack _). by vm_compute.
  - repeat constructor.
  - intros f Hf. simpl in Hf.
    repeat (apply elem_of_cons in Hf as [->|Hf]; [by vm_compute|]).
    by apply elem_of_nil in Hf.
Defined.

Section OutcomeFacts.
Variable env : Env.
Variable options : GenerateDocsOptions.

Local Abbreviation files := (discovered env options).

(** X9.  Processing a type completes exactly when there are patterns and
    no discovered file is both changed and rejected by its schema step: a
    file that would fail validation does no harm while it is served from
    the cache. *)
Theorem generateDocuments_completes_iff w :
  (∃ c w', generateDocuments env options w = (OK c, w')) ↔
  patterns_length (effective_patterns options) ≠ 0
  ∧ ∀ f, f ∈ files → processable env options w f.
Proof.
  split.
  - intros (c & w' & Hgd).
    assert (patterns_length (effective_patterns options) ≠ 0) as Hp
      by (intros Hp; by rewrite generateDocuments_no_patterns in Hgd).
    split; [done|]. intros f Hf. unfold processable.
    destruct (cache_hit env w f) eqn:Hhit; [by left|right].
    destruct (validate env options f) as [d|e0] eqn:Hv; [by exists d|].
    rewrite generateDocuments_eq in Hgd by done.
    match type of Hgd with
    | context [for_each _ _ ?l0 ?w0] =>
        destruct (loop_fails env options (definition_dir env options)
                    files l0 w0 f e0 Hf Hhit Hv) as (f' & e & w1 & _ & _ & Hl)
    end.
    by rewrite Hl in Hgd.
  - intros [Hp Hall]. rewrite generateDocuments_eq by done.
    match goal with
    | |- context [for_each _ _ ?l0 ?w0] =>
        destruct (loop_completes env options (definition_dir env options)
                    files l0 w0) as (l & w1 & ->); [done|]
    end.
    by eexists _, _.
Qed.

(** X10.  A call that throws at a file has already done the files before
    it: with distinct files, of which those before [f] are processable and
    [f] is changed and rejected, the call throws the error of [f]; the
    artifact of every file recomputed before [f] is written and the cache
    holds its new entry, in memory only, so that the next pass finds those
    files unchanged; the entry of [f] is as it was. *)
Theorem failure_keeps_earlier_work w pre f post e :
  patterns_length (effective_patterns options) ≠ 0 →
  files = pre ++ f :: post →
  NoDup files →
  (∀ p, p ∈ pre → processable env options w p) →
  cache_hit env w f = false →
  validate env options f = Err e →
  ∃ w',
    generateDocuments env options w = (Err e, w')
    ∧ (∀ p, p ∈ pre → cache_hit env w' p = true)
    ∧ (∀ p d, p ∈ pre → cache_hit env w p = false →
              validate env options p = OK d →
              WriteFile (output_json env options (definition_dir env options) p)
                (JsonDocument d) ∈ trace w'
              ∧ cached_document w' p = Some d)
    ∧ cache_items w' !! f = cache_items w !! f
    ∧ store w' = store w.
Proof.
  intros Hp Hsplit Hnd Hpre Hmiss Hv.
  rewrite generateDocuments_eq, Hsplit, for_each_app by done.
  rewrite Hsplit in Hnd.
  apply NoDup_app in Hnd as (Hnd_pre & Hdisj & [Hf_post _]%NoDup_cons).
  assert (f ∉ pre) as Hf_pre by (intros Hin; by apply (Hdisj f Hin); left).
  match goal with
  | |- context [for_each _ pre ?l0 ?w0] =>
      destruct (loop_completes env options (definition_dir env options)
                  pre l0 w0) as (l & w1 & Hl); [done|]
  end.
  rewrite Hl. simpl. unfold bind.
  destruct (loop_frame _ _ _ _ _ _ _ _ Hl) as (Hs1 & _ & Hi1).
  rewrite process_file_miss, Hv
    by (rewrite <- Hmiss; apply cache_hit_ext; by rewrite Hi1).
  eexists. split; [reflexivity|]. simpl. repeat split.
  - intros p Hin. by apply (loop_establishes_hits _ _ _ _ _ _ _ _ p Hl).
  - destruct (loop_recomputed _ _ _ _ _ _ _ _ p d Hnd_pre Hl) as [Hw _];
      try done.
    apply elem_of_app. left. by apply elem_of_app; left.
  - by destruct (loop_recomputed _ _ _ _ _ _ _ _ p d Hnd_pre Hl) as [_ Hc].
  - by rewrite Hi1.
  - done.
Qed.

End OutcomeFacts.

Lemma failure_keeps_earlier_work_witness :
  let env := Demo.env Demo.mtime0 Demo.read1 Demo.config in
  let e :=
    InvalidDocumentFrontmatterError "blog" "content/blog/b.md"
      {| errors := [{| issue_path := [PKey "title"];
                       issue_message := "Required" |}] |}
      {| loc_file := Demo.b_md; loc_line := 2; loc_column := 0 |} in
  ∃ w',
    generateDocuments env Demo.options Demo.world0 = (Err e, w')
    ∧ (∀ p, p ∈ [Demo.a_md] → cache_hit env w' p = true)
    ∧ (∀ p d, p ∈ [Demo.a_md] → cache_hit env Demo.world0 p = false →
              validate env Demo.options p = OK d →
              WriteFile (output_json env Demo.options "/site/content/blog" p)
                (JsonDocument d) ∈ trace w'
              ∧ cached_document w' p = Some d)
    ∧ cache_items w' !! Demo.b_md = None
    ∧ store w' = ∅.
Proof.
  intros env e.
  apply (failure_keeps_earlier_work env Demo.options Demo.world0
           [Demo.a_md] Demo.b_md [Demo.c_md] e).
  - by vm_compute.
  - reflexivity.
  - apply (bool_decide_unpack _). by vm_compute.
  - intros p ->%list_elem_of_singleton. right. eexists. by vm_compute.
  - by vm_compute.
  - by vm_compute.
Defined.

(** ** The orchestrator, continued *)

Section MorePassFacts.
Variable env : Env.
Variable config : ResolvedConfig.

Local Abbreviation types := (for_each (run_definition env config)).

Lemma types_events tds gens w r w' :
  types tds gens w = (r, w') →
  ∃ evs, trace w' = trace w ++ evs ∧ Forall (λ e, is_fs_event e = true) evs.
Proof.
  revert gens w. induction tds as [|td tds IH]; intros gens w; simpl.
  - intros [= <- <-]. exists []. by rewrite app_nil_r.
  - unfold bind. rewrite run_definition_eq.
    destruct (generateDocuments _ _ _) as [[c|e] w1] eqn:Hgd.
    + intros (evs & Ht & Hevs)%IH.
      apply generateDocuments_events in Hgd as (evs1 & Ht1 & Hevs1).
      exists (evs1 ++ evs). rewrite Ht, Ht1, app_assoc.
      split; [done|]. by apply Forall_app.
    + intros [= <- <-]. by apply generateDocuments_events in Hgd.
Qed.




Lemma generateInner_events w r w' :
  generateInner env config w = (r, w') →
  ∃ evs, trace w' = trace w ++ evs ∧ Forall (λ e, is_pass_event e = true) evs.
Proof.
  unfold generateInner, bind, run_definitions.
  destruct (types _ _ _) as [[gens|e] wa] eqn:Hrun.
  - apply types_events in Hrun as (evs & Ht & Hevs).
    unfold perform, cache_save, lift. simpl.
    assert (Forall (λ e, is_pass_event e = true) evs) as Hevs'.
    { eapply Forall_impl; [exact Hevs|]. by intros []. }
    destruct (reduce add_count (Js.values gens)) as [c|e]; intros [= <- <-];
      simpl; rewrite Ht, <- !app_assoc; eexists; (split; [reflexivity|]);
      apply Forall_app; split; try done; by repeat constructor.
  - intros [= <- <-]. apply types_events in Hrun as (evs & Ht & Hevs).
    exists evs. split; [done|].
    eapply Forall_impl; [exact Hevs|]. by intros [].
Qed.



End MorePassFacts.



(** X13.  [generate] starts a watcher exactly when the mode is development
    and the initial pass has completed; it then watches the content
    directory and the configuration dependencies, relative to the content
    directory.  In production, or when the initial pass throws, no watcher
    is started, and the error of the pass is the error of [generate]. *)
Theorem watcher_started_iff env mode providedConfigPath w r w' :
  generate env mode providedConfigPath w = (r, w') →
  let config := (getConfig env mode providedConfigPath (store w)).1 in
  ∃ evs,
    trace w' = trace w ++ evs
    ∧ ∀ files cwd,
        WatchStart files cwd ∈ evs ↔
        mode = development
        ∧ r = OK config
        ∧ files = contentDirPath config :: configImports config
        ∧ cwd = contentDirPath config.
Proof.
  unfold generate.
  destruct (getConfig env mode providedConfigPath (store w))
    as [config [items uniques]] eqn:Hcfg.
  unfold bind at 1 2 3, perform. simpl. unfold bind at 1.
  match goal with
  | |- context [generateInner env config ?w0] =>
      destruct (generateInner env config w0) as [[[]|e] w1] eqn:Hinner;
      apply generateInner_events in Hinner as (evs & Ht & Hevs)
  end; simpl in Ht; rewrite <- !app_assoc in Ht.
  - destruct mode; unfold bind, perform, ret; simpl; intros [= <- <-]; simpl.
    + rewrite Ht, <- !app_assoc. eexists. split; [reflexivity|].
      intros files cwd. simpl.
      rewrite !elem_of_cons, elem_of_app, !elem_of_cons, elem_of_nil.
      split.
      * intros [?|[?|[?|[Hin|[?|[[= -> ->]|[]]]]]]]; try done.
        rewrite Forall_forall in Hevs. by apply Hevs in Hin.
      * intros (_ & _ & -> & ->). do 3 right. right. right. by left.
    + rewrite Ht. eexists. split; [reflexivity|].
      intros files cwd. simpl. rewrite !elem_of_cons. split; [|by intros [? _]].
      intros [?|[?|[?|Hin]]]; try done.
      rewrite Forall_forall in Hevs. by apply Hevs in Hin.
  - intros [= <- <-]. rewrite Ht. eexists. split; [reflexivity|].
    intros files cwd. simpl. rewrite !elem_of_cons.
    split; [|by intros (_ & ? & _)].
    intros [?|[?|[?|Hin]]]; try done.
    rewrite Forall_forall in Hevs. by apply Hevs in Hin.
Qed.

Lemma watcher_started_iff_witness :
  let env := Demo.env Demo.mtime0 Demo.read0 Demo.config in
  let w' := (generate env development None Demo.world0).2 in
  ∃ evs,
    trace w' = [] ++ evs
    ∧ ∀ files cwd,
        WatchStart files cwd ∈ evs ↔
        development = development
        ∧ OK Demo.config = OK Demo.config
        ∧ files = ["/site/content"; "/site/markdownlayer.config.ts"]
        ∧ cwd = "/site/content".
Proof.
  intros env w'.
  apply (watcher_started_iff env development None Demo.world0
           (OK Demo.config) w').
  by vm_compute.
Defined.

(** ** The watch handler, continued *)

Lemma generateInner_ok_last env config w w' :
  generateInner env config w = (OK tt, w') →
  ∃ t c, last (trace w') = Some (Log (GeneratedStats t c)).
Proof.
  unfold generateInner, bind.
  destruct (run_definitions env config w) as [[gens|e] wa]; [|done].
  unfold perform, cache_save, lift. simpl.
  destruct (reduce add_count (Js.values gens)) as [c|e]; [|done].
  intros [= <-]. simpl. rewrite last_snoc. by eexists _, _.
Qed.

(** X14.  The handler survives a bad edit.  An event it ignores (a
    directory event, or one without a file name) changes nothing at all.
    For any other event on a path that is not a configuration dependency
    it returns normally whatever the regeneration does, and the last thing
    it logs is either the statistics of the completed pass or the error of
    the failed one, as a warning. *)
Theorem watch_handler_survives env mode providedConfigPath config
    eventName filename w :
  (∀ name, filename = Some name →
           join env [contentDirPath config; name] ∉ configImports config) →
  ∃ w',
    on_all env mode providedConfigPath config eventName filename w = (OK tt, w')
    ∧ (eventName = addDir ∨ eventName = unlinkDir ∨ filename = None → w' = w)
    ∧ (eventName ≠ addDir → eventName ≠ unlinkDir → filename ≠ None →
       (∃ t c, last (trace w') = Some (Log (GeneratedStats t c)))
       ∨ (∃ e, last (trace w') = Some (Log (Warning e)))).
Proof.
  intros Hcfg. destruct filename as [name|].
  2:{ exists w. split; [by destruct eventName|]. split; [done|].
      by intros _ _ ?. }
  specialize (Hcfg name eq_refl).
  assert (eventName ≠ addDir → eventName ≠ unlinkDir →
          on_all env mode providedConfigPath config eventName (Some name) w =
          (let w0 :=
             emit (Log (FileChanged (join env [contentDirPath config; name])))
               (remove_changed_file_cache
                  (join env [contentDirPath config; name]) w).2 in
           match generateInner env config w0 with
           | (OK tt, w') => (OK tt, w')
           | (Err error, w') => (OK tt, emit (Log (Warning error)) w')
           end)) as Hrun.
  { intros Hadd Hunlink.
    destruct eventName; try (by destruct Hadd); try (by destruct Hunlink);
      simpl; unfold includes; rewrite bool_decide_eq_false_2 by done;
      unfold bind, remove_changed_file_cache, perform; simpl;
      by destruct (generateInner env config _) as [[[]|e] w1]. }
  assert (eventName ≠ addDir → eventName ≠ unlinkDir →
          ∃ w',
            on_all env mode providedConfigPath config eventName (Some name) w =
              (OK tt, w')
            ∧ ((∃ t c, last (trace w') = Some (Log (GeneratedStats t c)))
               ∨ (∃ e, last (trace w') = Some (Log (Warning e))))) as Hhandled.
  { intros Hadd Hunlink. rewrite Hrun by done. simpl.
    destruct (generateInner env config _) as [[[]|e] w1] eqn:Hinner.
    - exists w1. split; [done|]. left. by eapply generateInner_ok_last.
    - eexists. split; [reflexivity|]. right. exists e. simpl.
      by rewrite last_snoc. }
  destruct eventName.
  2,5: (exists w; split; [done|]; split; [done|]; by intros ? ?).
  all: destruct Hhandled as (w' & Hw' & Hlast); [done|done|];
    exists w'; split; [done|]; split; [|by intros _ _ _];
    by intros [?|[?|?]].
Qed.

Lemma watch_handler_survives_witness :
  let env := Demo.env Demo.mtime1 Demo.read1 Demo.config in
  ∃ w',
    on_all env development None Demo.config change (Some "blog/b.md")
      Demo.world1 = (OK tt, w')
    ∧ (change = addDir ∨ change = unlinkDir ∨ Some "blog/b.md" = None →
       w' = Demo.world1)
    ∧ (change ≠ addDir → change ≠ unlinkDir → Some "blog/b.md" ≠ None →
       (∃ t c, last (trace w') = Some (Log (GeneratedStats t c)))
       ∨ (∃ e, last (trace w') = Some (Log (Warning e)))).
Proof.
  intros env.
  apply (watch_handler_survives env development None Demo.config change
           (Some "blog/b.md") Demo.world1).
  intros name [= <-]. apply (bool_decide_unpack _). by vm_compute.
Defined.

Lemma generate_ignores_memory_cache env mode providedConfigPath u w :
  generate env mode providedConfigPath (set_uniques u w) =
  generate env mode providedConfigPath w.
Proof. reflexivity. Qed.

(** X15.  On a change of a configuration dependency the handler logs it,
    closes the watcher and runs [generate] again, which reloads the
    configuration and the cache: what the handler removed from [uniques]
    does not matter to the restart.  The restart is not awaited inside the
    [try], so its error is not caught: the handler fails with it. *)
Theorem config_change_restarts env mode providedConfigPath config
    eventName name w :
  eventName ≠ addDir → eventName ≠ unlinkDir →
  join env [contentDirPath config; name] ∈ configImports config →
  on_all env mode providedConfigPath config eventName (Some name) w =
  match generate env mode providedConfigPath
          (emit WatchClose (emit (Log ConfigChanged) w)) with
  | (OK _, w') => (OK tt, w')
  | (Err e, w') => (Err e, w')
  end.
Proof.
  intros Hadd Hunlink Hcfg.
  assert (on_all env mode providedConfigPath config eventName (Some name) w =
          (remove_changed_file_cache
             (join env [contentDirPath config; name]) ;;
           if includes (configImports config)
                (join env [contentDirPath config; name]) then
             perform (Log ConfigChanged) ;;
             perform WatchClose ;;
             generate env mode providedConfigPath ;;
             ret tt
           else
             perform (Log (FileChanged (join env [contentDirPath config; name]))) ;;
             λ w, match generateInner env config w with
                  | (OK tt, w') => (OK tt, w')
                  | (Err error, w') => perform (Log (Warning error)) w'
                  end) w) as ->
    by (destruct eventName; first [reflexivity|by destruct Hadd|by destruct Hunlink]).
  unfold includes. rewrite bool_decide_eq_true_2 by done.
  unfold bind at 1 2 3, remove_changed_file_cache, perform.
  unfold bind, ret.
  match goal with
  | |- context [generate env mode providedConfigPath ?w0] =>
      change (generate env mode providedConfigPath w0)
        with (generate env mode providedConfigPath
                (emit WatchClose (emit (Log ConfigChanged) w)))
  end.
  by destruct (generate env mode providedConfigPath _) as [[c|e] w'].
Qed.

Lemma config_change_restarts_witness :
  let env := Demo.env Demo.mtime1 Demo.read1 Demo.config in
  let config :=
    {| configPath := "/site";
       configImports := ["/site/content/../markdownlayer.config.ts"];
       contentDirPath := "/site/content"; patterns := None;
       output := output Demo.config; definitions := definitions Demo.config;
       mdAsMarkdoc := None |} in
  ∃ e w',
    on_all env development None config change
      (Some "../markdownlayer.config.ts") Demo.world1 = (Err e, w')
    ∧ generate env development None
        (emit WatchClose (emit (Log ConfigChanged) Demo.world1)) = (Err e, w').
Proof.
  intros env config.
  pose proof (config_change_restarts env development None config
    change "../markdownlayer.config.ts" Demo.world1) as H.
  destruct (generate env development None
              (emit WatchClose (emit (Log ConfigChanged) Demo.world1)))
    as [[c|e] w'] eqn:Hg.
  - exfalso. vm_compute in Hg. discriminate Hg.
  - exists e, w'. split; [|done]. apply H; [done|done|].
    apply (bool_decide_unpack _). by vm_compute.
Defined.

Lemma removed_uniques filename (u : Js.object string) :
  foldl (λ u kv, if bool_decide (kv.2 = filename) then Js.del u kv.1 else u)
    u (Js.entries u) =
  filter (λ kv, kv.1 ∉ (filter (λ kv, kv.2 = filename) (Js.entries u)).*1) u.
Proof. apply (foldl_del (λ kv, kv.2 = filename)). Qed.

Lemma removed_uniques_elem filename (u : Js.object string) kv :
  kv ∈ filter (λ kv, kv.1 ∉ (filter (λ kv, kv.2 = filename) (Js.entries u)).*1) u →
  kv ∈ u ∧ kv.2 ≠ filename.
Proof.
  intros [Hk Hin]%list_elem_of_filter. split; [done|]. intros Hv.
  apply Hk. apply list_elem_of_fmap. exists kv. split; [done|].
  apply list_elem_of_filter. split; [done|]. by apply elem_entries.
Qed.

Lemma filter_all {A} (P : A → Prop) `{!∀ x, Decision (P x)} (l : list A) :
  (∀ x, x ∈ l → P x) → filter P l = l.
Proof.
  induction l as [|a l IH]; intros Hall; [done|].
  rewrite filter_cons_True by (apply Hall; left).
  f_equal. apply IH. intros x Hx. apply Hall. by right.
Qed.

(** X16.  The first loop of the handler leaves no entry of [uniques] whose
    value is the changed path, keeps only entries that were there, and
    touches nothing but [uniques]; running it again removes nothing more,
    and when no entry has that value it changes nothing. *)
Theorem remove_changed_file_cache_spec filename w :
  let w' := (remove_changed_file_cache filename w).2 in
  (∀ kv, kv ∈ cache_uniques w' → kv ∈ cache_uniques w ∧ kv.2 ≠ filename)
  ∧ cache_items w' = cache_items w
  ∧ store w' = store w
  ∧ trace w' = trace w
  ∧ remove_changed_file_cache filename w' = (OK tt, w')
  ∧ ((∀ kv, kv ∈ cache_uniques w → kv.2 ≠ filename) →
     cache_uniques w' = cache_uniques w).
Proof.
  intros w'.
  assert (∀ u : Js.object string,
            (∀ kv, kv ∈ u → kv.2 ≠ filename) →
            foldl (λ u kv, if bool_decide (kv.2 = filename)
                           then Js.del u kv.1 else u) u (Js.entries u) = u)
    as Hfix.
  { intros u Hu. rewrite removed_uniques. apply filter_all.
    intros kv Hkv Hin. apply list_elem_of_fmap in Hin as (kv' & _ & Hin').
    apply list_elem_of_filter in Hin' as [Hv Hin'%entries_elem].
    by apply (Hu kv'). }
  assert (∀ kv, kv ∈ cache_uniques w' → kv ∈ cache_uniques w ∧ kv.2 ≠ filename)
    as Hgone.
  { intros kv. subst w'. simpl. rewrite removed_uniques.
    apply removed_uniques_elem. }
  split; [done|]. split; [done|]. split; [done|]. split; [done|]. split.
  - unfold remove_changed_file_cache at 1. f_equal.
    rewrite Hfix by (intros kv Hkv; by apply Hgone). by destruct w'.
  - intros Hnone. subst w'. simpl. by apply Hfix.
Qed.

(** ** The naming utilities *)

Section UtilsFacts.
Import Utils.

Lemma chars_cons c s : chars (String c s) = c :: chars s.
Proof. reflexivity. Qed.

Lemma chars_inj s t : chars s = chars t → s = t.
Proof.
  revert t. induction s as [|c s IH]; intros [|d t]; try done.
  rewrite !chars_cons. intros [= -> H]. f_equal. by apply IH.
Qed.

Lemma chars_app s t : chars (s +:+ t) = chars s ++ chars t.
Proof.
  unfold chars. induction s as [|c s IH]; simpl; [done|]. by rewrite IH.
Qed.

Lemma replace_slashes_app s t :
  replace_slashes (s +:+ t) = replace_slashes s +:+ replace_slashes t.
Proof.
  induction s as [|c s IH]; simpl; [done|].
  destruct (bool_decide (c = "/"%char)); simpl; by rewrite IH.
Qed.

Lemma replace_slashes_no_slash s : "/"%char ∉ chars (replace_slashes s).
Proof.
  induction s as [|c s IH]; simpl; [apply not_elem_of_nil|].
  destruct (bool_decide (c = "/"%char)) eqn:Hc; simpl.
  - change ("__" +:+ replace_slashes s)
      with (String "_" (String "_" (replace_slashes s))).
    rewrite !chars_cons, !not_elem_of_cons. by repeat split.
  - apply bool_decide_eq_false in Hc.
    rewrite chars_cons, not_elem_of_cons. split; [congruence|done].
Qed.

Lemma replace_slashes_id s : "/"%char ∉ chars s → replace_slashes s = s.
Proof.
  induction s as [|c s IH]; simpl; [done|].
  rewrite chars_cons, not_elem_of_cons. intros [Hc Hs].
  rewrite bool_decide_eq_false_2 by congruence. by rewrite IH.
Qed.

Lemma replace_slashes_start s :
  starts_with_digit s = false → starts_with_digit (replace_slashes s) = false.
Proof.
  destruct s as [|c s]; simpl; [done|].
  by destruct (bool_decide (c = "/"%char)).
Qed.

Lemma leftPad_start s :
  starts_with_digit (leftPadWithUnderscoreIfStartsWithNumber s) = false.
Proof.
  unfold leftPadWithUnderscoreIfStartsWithNumber.
  by destruct (starts_with_digit s) eqn:Hs.
Qed.

Lemma leftPad_id s :
  starts_with_digit s = false → leftPadWithUnderscoreIfStartsWithNumber s = s.
Proof. unfold leftPadWithUnderscoreIfStartsWithNumber. by intros ->. Qed.

Lemma idToFileName_start id : starts_with_digit (idToFileName id) = false.
Proof. apply replace_slashes_start, leftPad_start. Qed.

(** X17.  A file name made from an id holds no path separator and does
    not start with a digit; making a file name from a file name changes
    nothing. *)
Theorem idToFileName_safe id :
  ("/"%char ∉ chars (idToFileName id))
  ∧ starts_with_digit (idToFileName id) = false
  ∧ idToFileName (idToFileName id) = idToFileName id.
Proof.
  split; [apply replace_slashes_no_slash|].
  split; [apply idToFileName_start|].
  unfold idToFileName at 1.
  rewrite leftPad_id by apply idToFileName_start.
  apply replace_slashes_id, replace_slashes_no_slash.
Qed.

Lemma replace_slashes_inj s t :
  "_"%char ∉ chars s → "_"%char ∉ chars t →
  replace_slashes s = replace_slashes t → s = t.
Proof.
  revert t. induction s as [|c s IH]; intros [|d t]; simpl.
  - done.
  - intros _ _. by destruct (bool_decide (d = "/"%char)).
  - intros _ _. by destruct (bool_decide (c = "/"%char)).
  - rewrite !chars_cons, !not_elem_of_cons. intros [Hc Hs] [Hd Ht].
    destruct (bool_decide (c = "/"%char)) eqn:Ec,
             (bool_decide (d = "/"%char)) eqn:Ed; simpl.
    + apply bool_decide_eq_true in Ec, Ed. subst.
      intros [= H]. f_equal. by apply IH.
    + intros [= H _]. congruence.
    + intros [= H _]. congruence.
    + intros [= -> H]. f_equal. by apply IH.
Qed.

Lemma replace_slashes_digit s :
  starts_with_digit s = true →
  ∃ c r, s = String c r ∧ is_digit c = true
         ∧ replace_slashes s = String c (replace_slashes r).
Proof.
  destruct s as [|c r]; simpl; [done|]. intros Hc. exists c, r.
  split; [done|]. split; [done|].
  rewrite bool_decide_eq_false_2; [done|]. intros ->. by vm_compute in Hc.
Qed.

(** A padded name and the name of an id without underscores differ. *)
Lemma padded_not_plain s t :
  starts_with_digit s = true → "_"%char ∉ chars t →
  replace_slashes ("_" +:+ s) ≠ replace_slashes t.
Proof.
  intros (c & r & -> & Hc & Hrs)%replace_slashes_digit Ht.
  change ("_" +:+ String c r) with (String "_" (String c r)).
  change (replace_slashes (String "_" (String c r)))
    with (String "_" (replace_slashes (String c r))).
  rewrite Hrs. destruct t as [|d t]; simpl; [done|].
  rewrite chars_cons, not_elem_of_cons in Ht. destruct Ht as [Hd _].
  destruct (bool_decide (d = "/"%char)).
  - change ("__" +:+ replace_slashes t)
      with (String "_" (String "_" (replace_slashes t))).
    intros [= -> _]. by vm_compute in Hc.
  - intros [= <- _]. done.
Qed.

(** X18.  Ids without underscores get distinct file names. *)
Theorem idToFileName_injective id1 id2 :
  "_"%char ∉ chars id1 → "_"%char ∉ chars id2 →
  idToFileName id1 = idToFileName id2 → id1 = id2.
Proof.
  intros H1 H2. unfold idToFileName, leftPadWithUnderscoreIfStartsWithNumber.
  destruct (starts_with_digit id1) eqn:E1, (starts_with_digit id2) eqn:E2.
  - change ("_" +:+ id1) with (String "_" id1).
    change ("_" +:+ id2) with (String "_" id2).
    simpl. intros [= H]. by apply replace_slashes_inj.
  - intros H. by destruct (padded_not_plain id1 id2).
  - intros H. by destruct (padded_not_plain id2 id1).
  - by apply replace_slashes_inj.
Qed.

Lemma starts_with_digit_app s t c :
  starts_with_digit (s +:+ String c t) =
  match s with EmptyString => is_digit c | _ => starts_with_digit s end.
Proof. by destruct s. Qed.

(** X19.  A path separator and a double underscore cannot be told apart
    in a file name: the ids [s/t] and [s__t], which differ, get the same
    file name, so the artifact of one overwrites that of the other. *)
Theorem idToFileName_collision s t :
  s +:+ "/" +:+ t ≠ s +:+ "__" +:+ t
  ∧ idToFileName (s +:+ "/" +:+ t) = idToFileName (s +:+ "__" +:+ t).
Proof.
  split.
  - intros H. apply (f_equal (λ x, length (chars x))) in H. simpl in H.
    rewrite !chars_app, !length_app in H.
    change (length (chars "/")) with 1 in H.
    change (length (chars "__")) with 2 in H. lia.
  - unfold idToFileName, leftPadWithUnderscoreIfStartsWithNumber.
    change ("/" +:+ t) with (String "/" t).
    change ("__" +:+ t) with (String "_" (String "_" t)).
    rewrite !starts_with_digit_app.
    assert (replace_slashes (s +:+ String "/" t) =
            replace_slashes (s +:+ String "_" (String "_" t))) as Hrs.
    { rewrite !replace_slashes_app. f_equal. }
    destruct s as [|c s]; simpl starts_with_digit.
    + change (is_digit "/") with false. change (is_digit "_") with false.
      exact Hrs.
    + destruct (is_digit c).
      * change ("_" +:+ ?x) with (String "_" x).
        change (replace_slashes (String "_" ?x))
          with (String "_" (replace_slashes x)).
        by rewrite Hrs.
      * exact Hrs.
Qed.

Lemma replace_slashes_plain s :
  "_"%char ∉ chars (replace_slashes s) → replace_slashes s = s.
Proof.
  induction s as [|c s IH]; simpl; [done|].
  destruct (bool_decide (c = "/"%char)).
  - change ("__" +:+ replace_slashes s)
      with (String "_" (String "_" (replace_slashes s))).
    rewrite chars_cons, not_elem_of_cons. by intros [? _].
  - rewrite chars_cons, not_elem_of_cons. intros [_ Hs]. by rewrite IH.
Qed.

(** X20.  A file name without underscores is the id it was made from:
    nothing was padded and nothing replaced.  So only the id [index] gets
    the name [index], the name of the collection file of its type. *)
Theorem idToFileName_plain id :
  ("_"%char ∉ chars (idToFileName id) → idToFileName id = id)
  ∧ (idToFileName id = "index" → id = "index").
Proof.
  assert ("_"%char ∉ chars (idToFileName id) → idToFileName id = id) as Hplain.
  { unfold idToFileName, leftPadWithUnderscoreIfStartsWithNumber.
    destruct (starts_with_digit id).
    - change ("_" +:+ id) with (String "_" id). simpl.
      rewrite chars_cons, not_elem_of_cons. by intros [? _].
    - apply replace_slashes_plain. }
  split; [done|]. intros Hidx. rewrite <- Hidx. symmetry. apply Hplain.
  rewrite Hidx. apply (bool_decide_unpack _). by vm_compute.
Qed.

Lemma idToFileName_plain_witness :
  idToFileName "index.md" = "index.md" ∧ "index.md" ≠ "index".
Proof.
  split; [|done].
  destruct (idToFileName_plain "index.md") as [Hplain _].
  apply Hplain. apply (bool_decide_unpack _). by vm_compute.
Defined.

Lemma idToFileName_injective_witness :
  idToFileName "blog/a.md" = "blog__a.md"
  ∧ (idToFileName "blog/a.md" = idToFileName "blog/b.md" → False).
Proof.
  split; [reflexivity|]. intros H.
  assert ("blog/a.md" = "blog/b.md") as Heq; [|done].
  apply (idToFileName_injective "blog/a.md" "blog/b.md");
    [apply (bool_decide_unpack _); by vm_compute..|exact H].
Defined.

(** Facts on one character are settled on the 256 of them. *)
Local Ltac by_cases_on c :=
  destruct c as [[] [] [] [] [] [] [] []]; vm_compute; (reflexivity || tauto || done).

Lemma to_lower_alnum c : is_alnum (to_lower c) = is_alnum c.
Proof. by_cases_on c. Qed.

Lemma to_upper_alnum c : is_alnum (to_upper c) = is_alnum c.
Proof. by_cases_on c. Qed.

Lemma to_lower_space c :
  bool_decide (to_lower c = " "%char) = bool_decide (c = " "%char).
Proof. by_cases_on c. Qed.

Lemma to_upper_space c :
  bool_decide (to_upper c = " "%char) = bool_decide (c = " "%char).
Proof. by_cases_on c. Qed.

Lemma to_upper_lower c : to_upper (to_lower c) = to_upper c.
Proof. by_cases_on c. Qed.

Lemma to_lower_upper c : to_lower (to_upper c) = to_lower c.
Proof. by_cases_on c. Qed.

Lemma to_lower_lower c : to_lower (to_lower c) = to_lower c.
Proof. by_cases_on c. Qed.

Lemma to_upper_upper c : to_upper (to_upper c) = to_upper c.
Proof. by_cases_on c. Qed.

Lemma space_not_alnum : is_alnum " " = false.
Proof. reflexivity. Qed.

Lemma collapse_map (f : ascii → ascii) b s :
  (∀ c, is_alnum (f c) = is_alnum c) → f " "%char = " "%char →
  collapse_non_alnum b (map_chars f s) = map_chars f (collapse_non_alnum b s).
Proof.
  intros Hf Hsp. revert b. induction s as [|c s IH]; intros b; simpl; [done|].
  rewrite Hf. destruct (is_alnum c); simpl; [by rewrite IH|].
  destruct b; simpl; by rewrite IH, ?Hsp.
Qed.

Lemma split_map (f : ascii → ascii) sep s :
  (∀ c, bool_decide (f c = sep) = bool_decide (c = sep)) →
  split sep (map_chars f s) = map_chars f <$> split sep s.
Proof.
  intros Hf. induction s as [|c s IH]; simpl; [done|].
  rewrite Hf, IH. destruct (bool_decide (c = sep)); simpl; [done|].
  by destruct (split sep s).
Qed.

Lemma capitalize_lower w : capitalize (map_chars to_lower w) = capitalize w.
Proof.
  destruct w as [|c r]; simpl; [done|]. rewrite to_upper_lower. f_equal.
  induction r as [|d r IH]; simpl; [done|]. by rewrite to_lower_lower, IH.
Qed.

Lemma capitalize_upper w : capitalize (map_chars to_upper w) = capitalize w.
Proof.
  destruct w as [|c r]; simpl; [done|]. rewrite to_upper_upper. f_equal.
  induction r as [|d r IH]; simpl; [done|]. by rewrite to_lower_upper, IH.
Qed.

(** X21.  [toPascalCase] does not see the letter case of what it is
    given: an all-lowercase and an all-uppercase spelling of a type name
    give the same result as the name itself, so that types such as
    [blog-post] and [BLOG-POST] share their derived names. *)
Theorem toPascalCase_ignores_case str :
  toPascalCase (map_chars to_lower str) = toPascalCase str
  ∧ toPascalCase (map_chars to_upper str) = toPascalCase str.
Proof.
  unfold toPascalCase. split.
  - rewrite collapse_map by (apply to_lower_alnum || reflexivity).
    rewrite split_map by apply to_lower_space.
    rewrite <- list_fmap_compose. f_equal. apply list_fmap_ext.
    intros _ w _. apply capitalize_lower.
  - rewrite collapse_map by (apply to_upper_alnum || reflexivity).
    rewrite split_map by apply to_upper_space.
    rewrite <- list_fmap_compose. f_equal. apply list_fmap_ext.
    intros _ w _. apply capitalize_upper.
Qed.

Lemma collapse_chars b s :
  Forall (λ c, is_alnum c = true ∨ c = " "%char)
    (chars (collapse_non_alnum b s)).
Proof.
  revert b. induction s as [|c s IH]; intros b; simpl; [constructor|].
  destruct (is_alnum c) eqn:Hc.
  - rewrite chars_cons. constructor; [by left|apply IH].
  - destruct b; [apply IH|]. rewrite chars_cons. constructor; [by right|apply IH].
Qed.

Lemma split_pieces (P : ascii → Prop) sep s :
  Forall (λ c, P c ∨ c = sep) (chars s) →
  Forall (λ w, Forall P (chars w)) (split sep s).
Proof.
  induction s as [|c s IH]; simpl.
  - intros _. repeat constructor.
  - rewrite chars_cons. intros [Hc Hs]%Forall_cons. specialize (IH Hs).
    destruct (bool_decide (c = sep)) eqn:Ec.
    + constructor; [constructor|done].
    + apply bool_decide_eq_false in Ec.
      destruct Hc as [Hc|Hc]; [|done].
      destruct (split sep s) as [|w ws]; [by repeat constructor|].
      apply Forall_cons in IH as [Hw Hws].
      constructor; [|done]. rewrite chars_cons. by constructor.
Qed.

Lemma capitalize_alnum w :
  Forall (λ c, is_alnum c = true) (chars w) →
  Forall (λ c, is_alnum c = true) (chars (capitalize w)).
Proof.
  destruct w as [|c r]; simpl; [done|].
  rewrite !chars_cons. intros [Hc Hr]%Forall_cons.
  constructor; [by rewrite to_upper_alnum|].
  induction r as [|d r IH]; simpl; [constructor|].
  rewrite chars_cons in *. apply Forall_cons in Hr as [Hd Hr].
  constructor; [by rewrite to_lower_alnum|by apply IH].
Qed.

Lemma concat_chars (P : ascii → Prop) (l : list string) :
  Forall (λ w, Forall P (chars w)) l → Forall P (chars (String.concat "" l)).
Proof.
  induction l as [|w l IH]; simpl; [constructor|].
  intros [Hw Hl]%Forall_cons. specialize (IH Hl).
  destruct l as [|w' l]; [done|].
  change (w +:+ "" +:+ String.concat "" (w' :: l))
    with (w +:+ String.concat "" (w' :: l)).
  rewrite chars_app. by apply Forall_app.
Qed.

Lemma toPascalCase_chars str :
  Forall (λ c, is_alnum c = true) (chars (toPascalCase str)).
Proof.
  unfold toPascalCase. apply concat_chars. apply Forall_fmap.
  eapply Forall_impl.
  - apply (split_pieces (λ c, is_alnum c = true)), collapse_chars.
  - intros w Hw. simpl. by apply capitalize_alnum.
Qed.

(** X22.  The result of [toPascalCase] consists of letters and digits
    only, whatever the input: separators of any kind are gone. *)
Theorem toPascalCase_alnum str :
  Forall (λ c, is_alnum c = true) (chars (toPascalCase str)).
Proof. apply toPascalCase_chars. Qed.

Lemma collapse_alnum_id b s :
  Forall (λ c, is_alnum c = true) (chars s) → collapse_non_alnum b s = s.
Proof.
  revert b. induction s as [|c s IH]; intros b; simpl; [done|].
  rewrite chars_cons. intros [-> Hs]%Forall_cons. by rewrite IH.
Qed.

Lemma split_no_separator sep s : sep ∉ chars s → split sep s = [s].
Proof.
  induction s as [|c s IH]; simpl; [done|].
  rewrite chars_cons, not_elem_of_cons. intros [Hc Hs].
  rewrite bool_decide_eq_false_2 by congruence. by rewrite IH.
Qed.

Lemma toPascalCase_of_word w :
  Forall (λ c, is_alnum c = true) (chars w) → toPascalCase w = capitalize w.
Proof.
  intros Hw. unfold toPascalCase. rewrite collapse_alnum_id by done.
  rewrite split_no_separator; [done|].
  intros Hsp. rewrite Forall_forall in Hw. by apply Hw in Hsp.
Qed.

(** X23.  On a single word of letters and digits [toPascalCase] keeps the
    first letter as a capital and lowercases all the others, so capitals
    inside a word are lost ([LegalDoc] becomes [Legaldoc]); applying it to
    its own result therefore lowercases everything after the first
    character. *)
Theorem toPascalCase_loses_inner_capitals str :
  (Forall (λ c, is_alnum c = true) (chars str) →
   toPascalCase str = capitalize str)
  ∧ toPascalCase (toPascalCase str) = capitalize (toPascalCase str).
Proof.
  split; [apply toPascalCase_of_word|].
  apply toPascalCase_of_word, toPascalCase_chars.
Qed.

Lemma toPascalCase_loses_inner_capitals_witness :
  toPascalCase "LegalDoc" = "Legaldoc"
  ∧ toPascalCase (toPascalCase "legal-doc") = "Legaldoc".
Proof.
  destruct (toPascalCase_loses_inner_capitals "LegalDoc") as [Hword _].
  destruct (toPascalCase_loses_inner_capitals "legal-doc") as [_ Htwice].
  split.
  - rewrite Hword; [reflexivity|]. apply (bool_decide_unpack _). by vm_compute.
  - rewrite Htwice. reflexivity.
Defined.

(** X24.  Authors from git are enabled only by an options object that
    says so: neither boolean enables them.  The update date from git is
    disabled only by [false] or by an object that says so.  The options
    returned, given back as an object, are returned unchanged. *)
Theorem git_options_defaults git :
  (git_authors (getDocumentDefinitionGitOptions git) = true ↔
   ∃ updated, git = GitObject updated (Some true))
  ∧ (git_updated (getDocumentDefinitionGitOptions git) = false ↔
     git = GitFlag false ∨ ∃ authors, git = GitObject (Some false) authors)
  ∧ (let r := getDocumentDefinitionGitOptions git in
     getDocumentDefinitionGitOptions
       (GitObject (Some (git_updated r)) (Some (git_authors r))) = r).
Proof.
  destruct git as [[]|[[]|] [[]|]]; simpl; repeat split;
    try done; try (by intros [? ?]); try (by intros [?|[? ?]]);
    try (intros _; by eexists); try (intros _; right; by eexists);
    try (intros _; by left).
Qed.

Section LibrariesFacts.
Variable githubSlug : string → string.
Variables extname normalize : string → string.
Variable separator : ascii.
Variable replace_at_end : string → string → string.






End LibrariesFacts.

End UtilsFacts.
